(** * Marathon scoreboard: scoring, aggregation and export

    A shallow embedding of the scoring core of the scoreboard application
    (the [App] component): the point table, [calculateStats],
    [getTeamsWithStats], [handleUpdateBookCount], [getFilteredTeams],
    [exportToCSV] and the dated bulk update of [AdminUpdateScoreModal].

    The repository holds several revisions of the component.  The
    development follows the latest one, which has the dated history, the
    date filter and the equivalence table; the first revision, [src/App.js],
    has the same filters and the same sort, and its own [calculateStats] and
    export are modelled in [Legacy].

    Modelling conventions.
    - A JavaScript number that holds a book count is an integer ([Z]); point
      totals are exact rationals ([Q]).  All weights are dyadic, so the
      double-precision arithmetic of the program is exact on these values as
      long as they stay below 2^53; the model does not go beyond that range.
    - A plain object holding counts is a finite map from property name to
      count, with its optional [date] property kept apart ([BookObj]).
    - An absent property ([undefined]) and [null] are [None].
    - Strings are byte strings; [toLowerCase] is modelled on ASCII letters.
      Statements that depend on how characters are counted or lower-cased
      are made for strings of ASCII characters ([isAscii]).
    - The property names of an object keyed by arbitrary strings are listed
      as the language orders them, array indices first ([ownKeys]).
    - A call of [updateTeam] resolves or is rejected; the bulk update takes
      the outcomes of its calls as a parameter.
    - [Array.prototype.sort] is the stable sort the language requires, and
      [toFixed] is modelled for magnitudes below 10^21, where it does not
      switch to exponent notation. *)

From Stdlib Require Import Ascii QArith Qround Qabs.
From stdpp Require Import base option list gmap strings pretty sorting.

Local Open Scope Z_scope.

(** ** Data model *)

(** [{ Bhagavatam: 1, MBB: 3 }]: property name to count. *)
Abbreviation BookCounts := (gmap string Z).

(** A plain object of counts, possibly tagged with a [date] property:
    a legacy flat [books] value or one entry of [booksHistory]. *)
Record BookObj := mkBookObj {
  date : option string;
  counts : BookCounts
}.

(** The two persisted shapes, told apart by [Array.isArray]. *)
Inductive BookData :=
  | Obj (bookCounts : BookObj)
  | Arr (entries : list BookObj).

Record Stats := mkStats {
  totalBooks : Z;
  totalPoints : Q
}.

Record Team := mkTeam {
  id : string;
  name : string;
  leader : string;
  booksHistory : option BookData;
  books : option BookObj
}.

(** ** Static tables *)

Definition BOOK_VALUES : list (string * Q) :=
  [ ("Bhagavatam", 72%Q); ("CC", 36%Q); ("MBB", 2%Q);
    ("BB", 1%Q); ("MB", (1#2)%Q); ("SB", (1#4)%Q) ].

Definition BOOK_EQUIV : list (string * Z) :=
  [ ("Bhagavatam", 18); ("CC", 9); ("MBB", 1);
    ("BB", 1); ("MB", 1); ("SB", 1) ].

(** [Object.keys(table)] *)
Definition keys {A} (table : list (string * A)) : list string :=
  map fst table.

(** [table[k]] on an object literal: the value of the property, if any. *)
Fixpoint prop {A} (table : list (string * A)) (k : string) : option A :=
  match table with
  | [] => None
  | (k', v) :: rest => if bool_decide (k' = k) then Some v else prop rest k
  end.

(** ** JavaScript helpers *)

(** [s] in a condition: a string is truthy unless it is empty; [null] and
    [undefined] are falsy. *)
Definition truthy (s : option string) : bool :=
  match s with
  | Some EmptyString => false
  | Some _ => true
  | None => false
  end.

(** [{}] *)
Definition emptyObj : BookObj := mkBookObj None ∅.

(** [obj[bookType] || 0] *)
Definition countOf (obj : BookObj) (bookType : string) : Z :=
  default 0 (counts obj !! bookType).

(** [{ date: d, ...obj }]: a [date] property of [obj] itself wins. *)
Definition withDate (d : string) (obj : BookObj) : BookObj :=
  mkBookObj (Some (default d (date obj))) (counts obj).

(** ** calculateStats *)

(** The body of the inner [forEach]: one book type added to the running
    totals. *)
Definition addBookType (obj : BookObj) (acc : Stats) (bookType : string)
  : Stats :=
  let count := countOf obj bookType in
  {| totalPoints :=
       (totalPoints acc + inject_Z count * default 0 (prop BOOK_VALUES bookType))%Q;
     totalBooks :=
       totalBooks acc + count * default 0 (prop BOOK_EQUIV bookType) |}.

(** [Object.keys(BOOK_VALUES).forEach(...)] on one object. *)
Definition addObject (acc : Stats) (obj : BookObj) : Stats :=
  fold_left (addBookType obj) (keys BOOK_VALUES) acc.

Definition zeroStats : Stats := mkStats 0 0%Q.

Definition calculateStats (booksData : BookData) (specificDate : option string)
  : Stats :=
  match booksData with
  | Obj bookCounts => addObject zeroStats bookCounts
  | Arr entries =>
      let filteredEntries :=
        if truthy specificDate
        then filter (λ entry, date entry = specificDate) entries
        else entries in
      fold_left addObject filteredEntries zeroStats
  end.

(** ** getTeamsWithStats *)

(** A team as [getTeamsWithStats] returns it: the stored team with [books]
    and [booksHistory] replaced by their normalised views, and the two
    totals spread over it. *)
Record TeamWithStats := mkTeamWithStats {
  team : Team;
  normBooks : BookObj;
  normHistory : list BookObj;
  stats : Stats
}.

(** [team.booksHistory || team.books || {}] *)
Definition booksDataOf (t : Team) : BookData :=
  match booksHistory t with
  | Some h => h
  | None => match books t with
            | Some b => Obj b
            | None => Obj emptyObj
            end
  end.

Definition teamWithStats (selectedDate : string) (dateFilter : option string)
    (t : Team) : TeamWithStats :=
  let booksData := booksDataOf t in
  match booksData with
  | Obj o =>
      if negb (truthy (date o)) then
        (* legacy flat counts *)
        let stats := calculateStats booksData dateFilter in
        mkTeamWithStats t o [withDate selectedDate o] stats
      else
        let stats := calculateStats booksData dateFilter in
        mkTeamWithStats t o [withDate selectedDate o] stats
  | Arr h =>
      let stats := calculateStats booksData dateFilter in
      mkTeamWithStats t emptyObj h stats
  end.

Definition getTeamsWithStats (teams : list Team) (selectedDate : string)
    (dateFilter : option string) : list TeamWithStats :=
  map (teamWithStats selectedDate dateFilter) teams.

(** ** handleUpdateBookCount *)

Definition setBooks (t : Team) (newBooks : BookObj) : Team :=
  mkTeam (id t) (name t) (leader t) (booksHistory t) (Some newBooks).

(** [{ ...currentBooks, [bookType]: newCount }] *)
Definition setCount (obj : BookObj) (bookType : string) (n : Z) : BookObj :=
  mkBookObj (date obj) (<[bookType := n]> (counts obj)).

(** The value of [newBooks] for a found team. *)
Definition updatedBooks (t : Team) (bookType : string) (delta : Z) : BookObj :=
  let currentBooks := default emptyObj (books t) in
  let newCount := Z.max 0 (countOf currentBooks bookType + delta) in
  setCount currentBooks bookType newCount.

(** The optimistic state update and the persisted write ([updateTeam] with
    the team id and the new [books]); nothing happens for an unknown id. *)
Definition handleUpdateBookCount (teams : list Team) (teamId bookType : string)
    (delta : Z) : list Team * option (string * BookObj) :=
  match find (λ t, bool_decide (id t = teamId)) teams with
  | None => (teams, None)
  | Some t =>
      let newBooks := updatedBooks t bookType delta in
      (map (λ t', if bool_decide (id t' = teamId)
                  then setBooks t' newBooks else t') teams,
       Some (teamId, newBooks))
  end.

(** ** Strings *)

(** [c.toLowerCase()] on one ASCII character. *)
Definition lowerChar (c : ascii) : ascii :=
  let n := nat_of_ascii c in
  if (65 <=? n)%nat && (n <=? 90)%nat then ascii_of_nat (n + 32) else c.

Fixpoint toLowerCase (s : string) : string :=
  match s with
  | EmptyString => EmptyString
  | String c s' => String (lowerChar c) (toLowerCase s')
  end.

(** [s.includes(sub)] *)
Fixpoint includes (s sub : string) : bool :=
  if String.prefix sub s then true
  else match s with
       | EmptyString => false
       | String _ s' => includes s' sub
       end.

(** ** getFilteredTeams *)

(** The view state read by [getFilteredTeams]. *)
Record AppState := mkAppState {
  teams : list Team;
  searchTerm : string;
  filterLeader : string;
  sortBy : string;
  selectedDate : string
}.

Definition nameMatches (searchTerm : string) (t : TeamWithStats) : bool :=
  includes (toLowerCase (name (team t))) (toLowerCase searchTerm).

Definition leaderMatches (filterLeader : string) (t : TeamWithStats) : bool :=
  bool_decide (leader (team t) = filterLeader).

(** [if (searchTerm) filtered = filtered.filter(...)] *)
Definition filterByName (searchTerm : string) (l : list TeamWithStats)
  : list TeamWithStats :=
  if truthy (Some searchTerm) then List.filter (nameMatches searchTerm) l else l.

(** [if (filterLeader !== 'all') filtered = filtered.filter(...)] *)
Definition filterByLeader (filterLeader : string) (l : list TeamWithStats)
  : list TeamWithStats :=
  if negb (bool_decide (filterLeader = "all"))
  then List.filter (leaderMatches filterLeader) l else l.

(** The comparison function handed to [sort]. *)
Definition compareTeams (sortBy : string) (a b : TeamWithStats) : Q :=
  if bool_decide (sortBy = "points")
  then (totalPoints (stats b) - totalPoints (stats a))%Q
  else inject_Z (totalBooks (stats b) - totalBooks (stats a)).

(** [Array.prototype.sort] with a comparison function.  The language
    requires the sort to be stable, and for a consistent comparison function
    the stable sorted arrangement of an array is unique; it is computed here
    by insertion from the right: an element stays in front of the first
    later element it need not follow ([compareFn x y <= 0]). *)
Section Sort.
Context {A : Type} (compareFn : A → A → Q).

Fixpoint sortInsert (x : A) (l : list A) : list A :=
  match l with
  | [] => [x]
  | y :: l' =>
      if Qle_bool (compareFn x y) 0 then x :: y :: l'
      else y :: sortInsert x l'
  end.

Definition sort (l : list A) : list A := foldr sortInsert [] l.
End Sort.

Definition getFilteredTeams (st : AppState) : list TeamWithStats :=
  let filtered := getTeamsWithStats (teams st) (selectedDate st)
                    (Some (selectedDate st)) in
  let filtered := filterByName (searchTerm st) filtered in
  let filtered := filterByLeader (filterLeader st) filtered in
  sort (compareTeams (sortBy st)) filtered.

(** ** exportToCSV *)

Definition comma : string := ",".
Definition newline : string := String "010" EmptyString.

(** [parts.join(sep)] *)
Definition join (sep : string) (parts : list string) : string :=
  String.concat sep parts.

(** One decimal digit as a character. *)
Definition digitChar (d : Z) : ascii := ascii_of_nat (48 + Z.to_nat d).

(** [x.toFixed(2)]: the sign, then the integer [n] nearest to [100 * |x|]
    (the larger one on a tie) written with a point before its last two
    digits. *)
Definition toFixed2 (x : Q) : string :=
  let s := if Qle_bool 0 x then EmptyString else "-"%string in
  let n := Qfloor (Qabs x * 100 + (1#2)) in
  s +:+ pretty (n / 100) +:+ "." +:+
  String (digitChar (n mod 100 / 10))
    (String (digitChar (n mod 10)) EmptyString).

Definition headers : list string :=
  [ "Rank"; "Team Name"; "BV Leader"; "Bhagavatam"; "CC"; "MBB"; "BB";
    "MB"; "SB"; "Total Books"; "Total Points" ]%string.

(** The array built for one team by the [map] callback; numbers become
    text when the row is joined. *)
Definition csvRow (idx : nat) (t : TeamWithStats) : list string :=
  [ pretty (idx + 1)%nat;
    name (team t);
    leader (team t);
    pretty (countOf (normBooks t) "Bhagavatam");
    pretty (countOf (normBooks t) "CC");
    pretty (countOf (normBooks t) "MBB");
    pretty (countOf (normBooks t) "BB");
    pretty (countOf (normBooks t) "MB");
    pretty (countOf (normBooks t) "SB");
    pretty (totalBooks (stats t));
    toFixed2 (totalPoints (stats t)) ].

(** The text handed to the [Blob]. *)
Definition exportToCSV (st : AppState) : string :=
  let teamsWithStats := getFilteredTeams st in
  let rows := imap csvRow teamsWithStats in
  join newline (map (join comma) (headers :: rows)).

(** ** Bulk score update by date (AdminUpdateScoreModal onUpdate) *)

Record ScoreUpdate := mkScoreUpdate {
  teamId : string;
  updDate : string;
  updBooks : BookCounts
}.

(** One call of [updateTeam(teamId, { booksHistory, books })]. *)
Record TeamWrite := mkTeamWrite {
  writeId : string;
  writeHistory : list BookObj;
  writeBooks : BookCounts
}.

(** [booksHistory.findIndex(entry => entry.date === date)] *)
Definition findIndex (d : string) (h : list BookObj) : option nat :=
  fst <$> list_find (λ entry, date entry = Some d) h.

(** Find or create the entry for this date. *)
Definition upsertEntry (d : string) (b : BookCounts) (h : list BookObj)
  : list BookObj :=
  match findIndex d h with
  | Some existingIndex => <[existingIndex := mkBookObj (Some d) b]> h
  | None => h ++ [mkBookObj (Some d) b]
  end.

Definition setHistory (t : Team) (h : list BookObj) : Team :=
  mkTeam (id t) (name t) (leader t) (Some (Arr h)) (books t).

(** The array held by the first team with the given id is replaced: this is
    the effect of assigning into, or pushing onto, [team.booksHistory], which
    is the very array the [teams] state refers to. *)
Fixpoint mutateHistory (tid : string) (h : list BookObj) (ts : list Team)
  : list Team :=
  match ts with
  | [] => []
  | t :: rest =>
      if bool_decide (id t = tid) then setHistory t h :: rest
      else t :: mutateHistory tid h rest
  end.

(** One pass through the body of the [for ... of updates] loop, up to the
    call of [updateTeam]: nothing for an unknown team ([continue]), otherwise
    the [teams] state after the assignment into the history and the write
    that is sent.  [today] is the current date as
    [new Date().toISOString().split('T')[0]] gives it. *)
Definition scoreUpdateStep (today : string) (ts : list Team) (u : ScoreUpdate)
  : option (list Team * TeamWrite) :=
  match find (λ t, bool_decide (id t = teamId u)) ts with
  | None => None
  | Some t =>
      match booksHistory t with
      | Some (Arr h) =>
          let h' := upsertEntry (updDate u) (updBooks u) h in
          Some (mutateHistory (teamId u) h' ts,
                mkTeamWrite (teamId u) h' (updBooks u))
      | Some (Obj _) =>
          (* convert old format to new format *)
          let h := [withDate today (default emptyObj (books t))] in
          let h' := upsertEntry (updDate u) (updBooks u) h in
          Some (ts, mkTeamWrite (teamId u) h' (updBooks u))
      | None =>
          let h' := upsertEntry (updDate u) (updBooks u) [] in
          Some (ts, mkTeamWrite (teamId u) h' (updBooks u))
      end
  end.

(** What a run of the handler leaves: the [teams] state, the calls of
    [updateTeam] it made, in order, and whether it reached
    [setShowAdminUpdateScore(false)]; otherwise it left the loop through
    [catch] and alerted. *)
Record UpdateRun := mkUpdateRun {
  runTeams : list Team;
  runWrites : list TeamWrite;
  runClosed : bool
}.

(** The loop inside [try].  [resolves n] tells whether the call of
    [updateTeam] number [n] of the run (counted from 0) resolves; a rejected
    call is the last one: the exception leaves the loop, and the updates
    that follow are not looked at. *)
Fixpoint scoreUpdateLoop (today : string) (resolves : nat → bool)
    (updates : list ScoreUpdate) (ts : list Team) (writes : list TeamWrite)
  : UpdateRun :=
  match updates with
  | [] => mkUpdateRun ts writes true
  | u :: rest =>
      match scoreUpdateStep today ts u with
      | None => scoreUpdateLoop today resolves rest ts writes
      | Some (ts', w) =>
          if resolves (length writes)
          then scoreUpdateLoop today resolves rest ts' (writes ++ [w])
          else mkUpdateRun ts' (writes ++ [w]) false
      end
  end.

(** The whole handler. *)
Definition onUpdate (today : string) (resolves : nat → bool) (ts : list Team)
    (updates : list ScoreUpdate) : UpdateRun :=
  scoreUpdateLoop today resolves updates ts [].

(** ** The first revision of the component (src/App.js)

    The repository also holds the first revision of [App]: no dated history,
    no equivalence table, and a [calculateStats] that walks the properties of
    the object it is given.  [NaN] is [None]. *)
Module Legacy.

(** A flat [books] object: its properties in insertion order. *)
Abbreviation Books := (list (string * Z)).

Record Stats := mkStats {
  totalBooks : Z;
  totalPoints : option Q
}.

Record Team := mkTeam {
  name : string;
  leader : string;
  books : Books
}.

(** The body of the [forEach]: [count * BOOK_VALUES[bookType]] is [NaN]
    when the table has no such property, and [NaN] stays. *)
Definition addBookType (books : Books) (acc : Stats) (bookType : string)
  : Stats :=
  let count := default 0 (prop books bookType) in
  {| totalBooks := totalBooks acc + count;
     totalPoints :=
       match totalPoints acc, prop BOOK_VALUES bookType with
       | Some points, Some value => Some (points + inject_Z count * value)%Q
       | _, _ => None
       end |}.

Definition calculateStats (books : Books) : Stats :=
  fold_left (addBookType books) (keys books) (mkStats 0 (Some 0%Q)).

Record TeamWithStats := mkTeamWithStats {
  team : Team;
  stats : Stats
}.

Definition getTeamsWithStats (teams : list Team) : list TeamWithStats :=
  map (λ t, mkTeamWithStats t (calculateStats (books t))) teams.

(** The rank and the team of each row that [exportToCSV] builds: the rows
    come from [getTeamsWithStats()], in stored order, whatever the search
    term, the leader filter and the sort key are. *)
Definition exportRanks (teams : list Team) : list (nat * TeamWithStats) :=
  imap (λ idx t, ((idx + 1)%nat, t)) (getTeamsWithStats teams).

End Legacy.

(** ** Vocabulary of the statements *)

Fixpoint sumZ (l : list Z) : Z :=
  match l with
  | [] => 0
  | x :: rest => x + sumZ rest
  end.

Fixpoint sumQ (l : list Q) : Q :=
  match l with
  | [] => 0%Q
  | x :: rest => (x + sumQ rest)%Q
  end.

(** The fixed category set. *)
Definition categories : list string :=
  [ "Bhagavatam"; "CC"; "MBB"; "BB"; "MB"; "SB" ]%string.

(** The statistic selected by [sortBy]: points for ["points"], books for
    anything else. *)
Definition selectedStat (sortBy : string) (t : TeamWithStats) : Q :=
  if bool_decide (sortBy = "points") then totalPoints (stats t)
  else inject_Z (totalBooks (stats t)).

(** All counts of an object are non-negative. *)
Definition nonNegative (o : BookObj) : Prop :=
  map_Forall (λ _ n, 0 ≤ n) (counts o).

Definition teamNonNegative (t : Team) : Prop :=
  ∀ b, books t = Some b → nonNegative b.

(** How many entries carry the date [d]. *)
Definition entriesOn (d : string) (h : list BookObj) : nat :=
  length (filter (λ e, date e = Some d) h).

(** At most one entry per distinct date. *)
Definition onePerDate (h : list BookObj) : Prop :=
  ∀ d, (entriesOn d h ≤ 1)%nat.

Definition teamOnePerDate (t : Team) : Prop :=
  ∀ h, booksHistory t = Some (Arr h) → onePerDate h.

(** The invariant carried through the loop: every array history in the
    state, and every history written so far, has one entry per date. *)
Definition updateInvariant (ts : list Team) (writes : list TeamWrite) : Prop :=
  Forall teamOnePerDate ts ∧ Forall (λ w, onePerDate (writeHistory w)) writes.

(** [s.split(c)] for a one-character separator; the lines of a text are
    its pieces at the line breaks. *)
Fixpoint split (c : ascii) (s : string) : list string :=
  match s with
  | EmptyString => [EmptyString]
  | String a s' =>
      if bool_decide (a = c) then EmptyString :: split c s'
      else match split c s' with
           | [] => [String a EmptyString]
           | piece :: pieces => String a piece :: pieces
           end
  end.

(** The character [c] occurs in [s]. *)
Fixpoint contains (c : ascii) (s : string) : bool :=
  match s with
  | EmptyString => false
  | String a s' => bool_decide (a = c) || contains c s'
  end.

Definition isDigit (c : ascii) : bool :=
  (48 <=? nat_of_ascii c)%nat && (nat_of_ascii c <=? 57)%nat.

(** A team passes the two filters of the current view. *)
Definition passesFilters (st : AppState) (t : Team) : bool :=
  (negb (truthy (Some (searchTerm st)))
   || includes (toLowerCase (name t)) (toLowerCase (searchTerm st)))
  && (bool_decide (filterLeader st = "all")
      || bool_decide (leader t = filterLeader st)).

(** Neither the name nor the leader of the team contains a line break. *)
Definition singleLine (t : Team) : bool :=
  negb (contains "010" (name t)) && negb (contains "010" (leader t)).

(** ** Sample data *)

(** Scenario A: [{ Bhagavatam: 1, MBB: 3 }]. *)
Definition scenarioA : BookObj :=
  mkBookObj None (<["Bhagavatam" := 1]> (<["MBB" := 3]> ∅)).

(** One history entry, dated 2024-01-01, with a single MBB. *)
Definition oneEntryHistory : list BookObj :=
  [ mkBookObj (Some "2024-01-01"%string) {[ "MBB"%string := 1 ]} ].

(** A team stored in the legacy shape: flat [books], no [booksHistory]. *)
Definition legacyTeam : Team :=
  mkTeam "t1" "Alpha Squad" "Leader One" None (Some scenarioA).

(** A team with a dated history, and a view state over both teams. *)
Definition teamBeta : Team :=
  mkTeam "t2" "Beta Team" "Leader Two" (Some (Arr oneEntryHistory)) None.

Definition sampleState : AppState :=
  mkAppState [teamBeta; legacyTeam] "" "all" "points" "2024-01-01".

(** A team whose name holds a line break. *)
Definition twoLineTeam : Team :=
  mkTeam "t3" (String "A" (String "010" "B")) "Leader One" None None.

Definition twoLineState : AppState :=
  mkAppState [twoLineTeam] "" "all" "points" "2024-01-01".

(** ** Further functions of the component *)

(** *** Dashboard summaries: the body of [App] before it renders *)

(** [teamsWithStats.reduce((sum, t) => sum + t.totalBooks, 0)], over
    [getTeamsWithStats(selectedDate)]. *)
Definition dashboardBooks (st : AppState) : Z :=
  fold_left (λ sum t, sum + totalBooks (stats t))
    (getTeamsWithStats (teams st) (selectedDate st) (Some (selectedDate st)))
    0.

Definition dashboardPoints (st : AppState) : Q :=
  fold_left (λ sum t, (sum + totalPoints (stats t))%Q)
    (getTeamsWithStats (teams st) (selectedDate st) (Some (selectedDate st)))
    0%Q.

(** [name.length > 15 ? name.substring(0, 15) + '...' : name].  The
    characters of the model's strings are the UTF-16 units that [length] and
    [substring] count when the name is made of ASCII characters; the
    statements about labels are made for such names. *)
Definition chartName (n : string) : string :=
  if (15 <? String.length n)%nat
  then String.substring 0 15 n +:+ "..."
  else n.

Record ChartEntry := mkChartEntry {
  chartLabel : string;
  chartPoints : Q;
  chartBooks : Z
}.

Definition chartEntry (t : TeamWithStats) : ChartEntry :=
  mkChartEntry (chartName (name (team t)))
    (totalPoints (stats t)) (totalBooks (stats t)).

(** [filteredTeams.slice(0, 10).sort(...).map(...)] *)
Definition chartData (st : AppState) : list ChartEntry :=
  map chartEntry
    (sort (compareTeams (sortBy st)) (take 10 (getFilteredTeams st))).

Record DistributionItem := mkDistributionItem {
  itemName : string;
  itemValue : Z
}.

(** The count of one book type summed over the teams' [books]. *)
Definition distributionValue (l : list TeamWithStats) (bookType : string) : Z :=
  fold_left (λ sum t, sum + countOf (normBooks t) bookType) l 0.

(** [Object.keys(BOOK_VALUES).map(...).filter(item => item.value > 0)] *)
Definition bookDistribution (st : AppState) : list DistributionItem :=
  let teamsWithStats :=
    getTeamsWithStats (teams st) (selectedDate st) (Some (selectedDate st)) in
  List.filter (λ item, 0 <? itemValue item)
    (map (λ bookType,
            mkDistributionItem bookType
              (distributionValue teamsWithStats bookType))
       (keys BOOK_VALUES)).

(** *** The stored team after a write

    [updateTeam(teamId, { booksHistory, books })] replaces these two fields
    of the stored document; the teams subscription then delivers the team
    with the new values. *)
Definition applyWrite (w : TeamWrite) (t : Team) : Team :=
  mkTeam (id t) (name t) (leader t)
    (Some (Arr (writeHistory w))) (Some (mkBookObj None (writeBooks w))).

(** *** The leader roster *)

Record LeaderDoc := mkLeaderDoc {
  leaderId : string;
  leaderName : string
}.

(** The [leaders] state after [handleAddLeader] and the name it sends to
    [addLeader], if any, when that call succeeds (a failed call leaves the
    state as it was). *)
Definition handleAddLeader (leaders : list string) (newLeader : string)
  : list string * option string :=
  if truthy (Some newLeader) && negb (bool_decide (newLeader ∈ leaders))
  then (leaders ++ [newLeader], Some newLeader)
  else (leaders, None).

(** The [leaders] state after [handleDeleteLeader] and the id it sends to
    [deleteLeader], if any.  [confirmed] is the answer to the confirmation
    dialog and [leadersData] what [getLeaders()] returned. *)
Definition handleDeleteLeader (leaders : list string) (leader : string)
    (confirmed : bool) (leadersData : list LeaderDoc)
  : list string * option string :=
  if confirmed then
    match find (λ l, bool_decide (leaderName l = leader)) leadersData with
    | Some leaderDoc =>
        (List.filter (λ l, negb (bool_decide (l = leader))) leaders,
         Some (leaderId leaderDoc))
    | None => (leaders, None)
    end
  else (leaders, None).

(** *** The modals *)

(** An object keyed by team id: its properties in the order in which they
    were created.  [{ ...prev, [k]: v }] and [o[k] = v] keep the place of a
    property that exists and put a new one last. *)
Fixpoint objSet {A} (o : list (string * A)) (k : string) (v : A)
  : list (string * A) :=
  match o with
  | [] => [(k, v)]
  | (k', v') :: rest =>
      if bool_decide (k' = k) then (k, v) :: rest
      else (k', v') :: objSet rest k v
  end.

(** The number a digit string denotes. *)
Definition digitValue (c : ascii) : Z := Z.of_nat (nat_of_ascii c) - 48.

Fixpoint readDigits (acc : Z) (s : string) : Z :=
  match s with
  | EmptyString => acc
  | String c s' => readDigits (acc * 10 + digitValue c) s'
  end.

Fixpoint allDigits (s : string) : bool :=
  match s with
  | EmptyString => true
  | String c s' => isDigit c && allDigits s'
  end.

(** A property name that is an array index: the decimal numeral, without
    leading zeros, of an integer from 0 to 2^32 - 2. *)
Definition isArrayIndex (k : string) : bool :=
  match k with
  | EmptyString => false
  | String c rest =>
      allDigits k
      && (negb (bool_decide (c = "0"%char)) || bool_decide (rest = EmptyString))
      && (readDigits 0 k <? 4294967295)
  end.

(** The numeric order of array indices. *)
Definition indexLe (k1 k2 : string) : Prop :=
  readDigits 0 k1 ≤ readDigits 0 k2.

#[local] Instance indexLe_dec : RelDecision indexLe :=
  λ k1 k2, decide (readDigits 0 k1 ≤ readDigits 0 k2).

(** The order in which the property names of an object are listed when
    [ks] is the order of their creation: the array indices first, in
    ascending numeric order, then the other names as they were created. *)
Definition keyOrder (ks : list string) : list string :=
  merge_sort indexLe (List.filter isArrayIndex ks)
  ++ List.filter (λ k, negb (isArrayIndex k)) ks.

(** [Object.keys(o)] for an object that may have any property names. *)
Definition ownKeys {A} (o : list (string * A)) : list string :=
  keyOrder (keys o).

(** [{ Bhagavatam: 0, CC: 0, MBB: 0, BB: 0, MB: 0, SB: 0 }] *)
Definition zeroCounts : BookCounts :=
  <["Bhagavatam" := 0]> (<["CC" := 0]> (<["MBB" := 0]>
    (<["BB" := 0]> (<["MB" := 0]> (<["SB" := 0]> ∅))))).

(** The search box of [EditTeamsModal] and of [AdminUpdateScoreModal]:
    [teams.filter(team => team.name.toLowerCase().includes(term.toLowerCase()))] *)
Definition modalFilteredTeams (teams : list Team) (teamSearchTerm : string)
  : list Team :=
  List.filter
    (λ team, includes (toLowerCase (name team)) (toLowerCase teamSearchTerm))
    teams.

Module AdminUpdateScoreModal.

(** The [scoreUpdates] state set by the effect: zero counts for every team. *)
Definition initialUpdates (teams : list Team) : list (string * BookCounts) :=
  fold_left (λ o team, objSet o (id team) zeroCounts) teams [].

(** [parsed] is the value of [parseInt(value)], [None] for [NaN]. *)
Definition handleBookChange (prev : list (string * BookCounts))
    (teamId bookType : string) (parsed : option Z)
  : list (string * BookCounts) :=
  objSet prev teamId
    (<[bookType := Z.max 0 (default 0 parsed)]>
       (default ∅ (prop prev teamId))).

(** [Object.values(books).some(val => val > 0)] *)
Definition somePositive (books : BookCounts) : bool :=
  existsb (λ kv, 0 <? kv.2) (map_to_list books).

(** The updates handed to [onUpdate]; [None] when the handler only alerts. *)
Definition handleUpdate (selectedDate : string)
    (scoreUpdates : list (string * BookCounts)) : option (list ScoreUpdate) :=
  let updates :=
    map (λ teamId,
           mkScoreUpdate teamId selectedDate
             (default ∅ (prop scoreUpdates teamId)))
      (List.filter
         (λ teamId, somePositive (default ∅ (prop scoreUpdates teamId)))
         (ownKeys scoreUpdates)) in
  if bool_decide (length updates = 0%nat) then None else Some updates.

End AdminUpdateScoreModal.

Module EditTeamsModal.

(** The [teamEdits] state set by the effect: a copy of each team's [books],
    zero counts for a team without. *)
Definition initialEdits (teams : list Team) : list (string * BookObj) :=
  fold_left
    (λ o team,
       objSet o (id team)
         (default (mkBookObj None zeroCounts) (books team)))
    teams [].

(** The updates handed to [onUpdate]: one for every edited id that is still
    the id of a team. *)
Definition handleUpdate (teams : list Team)
    (teamEdits : list (string * BookObj)) : list (string * BookObj) :=
  omap (λ teamId,
          match find (λ t, bool_decide (id t = teamId)) teams with
          | None => None
          | Some _ => Some (teamId, default emptyObj (prop teamEdits teamId))
          end)
    (ownKeys teamEdits).

End EditTeamsModal.

(** *** Vocabulary of the further statements *)

(** All counts held by a book value are non-negative. *)
Definition dataNonNegative (booksData : BookData) : Prop :=
  match booksData with
  | Obj o => nonNegative o
  | Arr entries => Forall nonNegative entries
  end.

(** The point value of an object in quarter points. *)
Definition quarters (o : BookObj) : Z :=
  288 * countOf o "Bhagavatam" + 144 * countOf o "CC" + 8 * countOf o "MBB"
  + 4 * countOf o "BB" + 2 * countOf o "MB" + countOf o "SB".

(** What the views show of a team: everything but the stored record. *)
Definition viewOf (r : TeamWithStats)
  : string * string * BookObj * list BookObj * Stats :=
  (name (team r), leader (team r), normBooks r, normHistory r, stats r).

(** A change of one input of the score modal. *)
Record BookChange := mkBookChange {
  changeTeam : string;
  changeType : string;
  changeParsed : option Z
}.

(** The modal state after a sequence of input changes. *)
Definition applyChanges (s : list (string * BookCounts))
    (changes : list BookChange) : list (string * BookCounts) :=
  fold_left
    (λ s c, AdminUpdateScoreModal.handleBookChange s
              (changeTeam c) (changeType c) (changeParsed c))
    changes s.

(** A leading minus sign, taken off. *)
Definition stripMinus (s : string) : bool * string :=
  match s with
  | String c s' => if bool_decide (c = "-"%char) then (true, s') else (false, s)
  | EmptyString => (false, s)
  end.

(** The number a text with two decimals denotes: an optional minus sign,
    digits, a point, digits. *)
Definition readFixed2 (s : string) : option Q :=
  let '(negative, body) := stripMinus s in
  match split "." body with
  | [whole; fraction] =>
      let n := readDigits 0 whole * 100 + readDigits 0 fraction in
      Some (Qmake (if negative : bool then - n else n) 100)
  | _ => None
  end.

(** The counts of a modal entry: known categories, no negative count. *)
Definition modalCounts (c : BookCounts) : Prop :=
  map_Forall (λ k v, k ∈ categories ∧ 0 ≤ v) c.

(** Every character of the string is an ASCII character.  On such strings
    the characters of the model are the UTF-16 units of the program, and
    [toLowerCase] changes the letters A to Z and nothing else. *)
Fixpoint isAscii (s : string) : bool :=
  match s with
  | EmptyString => true
  | String c s' => (nat_of_ascii c <? 128)%nat && isAscii s'
  end.

(** Two teams whose ids are array indices, stored with the larger one
    first. *)
Definition indexTeams : list Team :=
  [ mkTeam "10" "Ten" "Leader One" None None;
    mkTeam "2" "Two" "Leader Two" None (Some scenarioA) ].

(** A [books] object of the first revision: [{ MB: 3, Bhagavatam: 1 }]. *)
Definition sampleLegacyBooks : Legacy.Books :=
  [ ("MB"%string, 3); ("Bhagavatam"%string, 1) ].

(** * Properties *)

(** ** The stats calculation *)

Lemma keys_BOOK_VALUES : keys BOOK_VALUES = categories.
Proof. reflexivity. Qed.

Lemma addBookType_books obj acc k :
  totalBooks (addBookType obj acc k)
  = totalBooks acc + countOf obj k * default 0 (prop BOOK_EQUIV k).
Proof. reflexivity. Qed.

Lemma addBookType_points obj acc k :
  totalPoints (addBookType obj acc k)
  = (totalPoints acc
     + inject_Z (countOf obj k) * default 0 (prop BOOK_VALUES k))%Q.
Proof. reflexivity. Qed.

(** The totals of one object only read the six table keys. *)
Lemma addObject_ext acc o1 o2 :
  (∀ k, k ∈ categories → countOf o1 k = countOf o2 k) →
  addObject acc o1 = addObject acc o2.
Proof.
  intros Hk. unfold addObject. rewrite keys_BOOK_VALUES.
  assert (Hall : Forall (λ k, countOf o1 k = countOf o2 k) categories).
  { apply Forall_forall. intros k Hin. by apply Hk. }
  clear Hk. revert acc.
  induction Hall as [|k ks Hx _ IH]; intros acc; [done|].
  simpl. replace (addBookType o1 acc k) with (addBookType o2 acc k).
  - apply IH.
  - unfold addBookType. by rewrite Hx.
Qed.

(** The table entries, as rewrite rules. *)
Lemma BOOK_VALUES_Bhagavatam : default 0%Q (prop BOOK_VALUES "Bhagavatam") = 72%Q.
Proof. reflexivity. Qed.
Lemma BOOK_VALUES_CC : default 0%Q (prop BOOK_VALUES "CC") = 36%Q.
Proof. reflexivity. Qed.
Lemma BOOK_VALUES_MBB : default 0%Q (prop BOOK_VALUES "MBB") = 2%Q.
Proof. reflexivity. Qed.
Lemma BOOK_VALUES_BB : default 0%Q (prop BOOK_VALUES "BB") = 1%Q.
Proof. reflexivity. Qed.
Lemma BOOK_VALUES_MB : default 0%Q (prop BOOK_VALUES "MB") = (1#2)%Q.
Proof. reflexivity. Qed.
Lemma BOOK_VALUES_SB : default 0%Q (prop BOOK_VALUES "SB") = (1#4)%Q.
Proof. reflexivity. Qed.
Lemma BOOK_EQUIV_Bhagavatam : default 0 (prop BOOK_EQUIV "Bhagavatam") = 18.
Proof. reflexivity. Qed.
Lemma BOOK_EQUIV_CC : default 0 (prop BOOK_EQUIV "CC") = 9.
Proof. reflexivity. Qed.
Lemma BOOK_EQUIV_MBB : default 0 (prop BOOK_EQUIV "MBB") = 1.
Proof. reflexivity. Qed.
Lemma BOOK_EQUIV_BB : default 0 (prop BOOK_EQUIV "BB") = 1.
Proof. reflexivity. Qed.
Lemma BOOK_EQUIV_MB : default 0 (prop BOOK_EQUIV "MB") = 1.
Proof. reflexivity. Qed.
Lemma BOOK_EQUIV_SB : default 0 (prop BOOK_EQUIV "SB") = 1.
Proof. reflexivity. Qed.

Create Rewrite HintDb tables.
#[local] Hint Rewrite
  BOOK_VALUES_Bhagavatam BOOK_VALUES_CC BOOK_VALUES_MBB
  BOOK_VALUES_BB BOOK_VALUES_MB BOOK_VALUES_SB
  BOOK_EQUIV_Bhagavatam BOOK_EQUIV_CC BOOK_EQUIV_MBB
  BOOK_EQUIV_BB BOOK_EQUIV_MB BOOK_EQUIV_SB : tables.

(** Unfold the six iterations of the inner loop and read the tables. *)
Ltac unroll_categories :=
  unfold addObject; rewrite keys_BOOK_VALUES; unfold categories;
  cbn [fold_left];
  rewrite ?addBookType_books, ?addBookType_points;
  autorewrite with tables;
  cbn [totalBooks totalPoints zeroStats].

(** Adding an object to running totals adds its own totals. *)
Lemma addObject_books acc o :
  totalBooks (addObject acc o)
  = totalBooks acc + totalBooks (addObject zeroStats o).
Proof. unroll_categories. lia. Qed.

Lemma addObject_points acc o :
  (totalPoints (addObject acc o)
   == totalPoints acc + totalPoints (addObject zeroStats o))%Q.
Proof. unroll_categories. ring. Qed.

Lemma fold_addObject_books es acc :
  totalBooks (fold_left addObject es acc)
  = totalBooks acc
    + sumZ (map (λ e, totalBooks (addObject zeroStats e)) es).
Proof.
  revert acc. induction es as [|e es IH]; intros acc;
    cbn [fold_left map sumZ].
  - lia.
  - rewrite IH, addObject_books. lia.
Qed.

Lemma fold_addObject_points es acc :
  (totalPoints (fold_left addObject es acc)
   == totalPoints acc
      + sumQ (map (λ e, totalPoints (addObject zeroStats e)) es))%Q.
Proof.
  revert acc. induction es as [|e es IH]; intros acc;
    cbn [fold_left map sumQ].
  - ring.
  - rewrite IH, addObject_points. ring.
Qed.

(** C1. For a flat counts object the point total is the weighted sum of its
    counts over the six fixed categories, with weights 72, 36, 2, 1, 1/2 and
    1/4; a property outside the fixed set does not change the result; and
    scenario A gives 78 points. *)
Theorem calculateStats_flat_points :
  (∀ (o : BookObj) (d : option string),
     (totalPoints (calculateStats (Obj o) d)
      == inject_Z (countOf o "Bhagavatam") * 72
         + inject_Z (countOf o "CC") * 36
         + inject_Z (countOf o "MBB") * 2
         + inject_Z (countOf o "BB") * 1
         + inject_Z (countOf o "MB") * (1#2)
         + inject_Z (countOf o "SB") * (1#4))%Q) ∧
  (∀ (o : BookObj) (d : option string) (k : string) (v : Z),
     k ∉ categories →
     calculateStats (Obj (setCount o k v)) d = calculateStats (Obj o) d) ∧
  (totalPoints (calculateStats (Obj scenarioA) None) == 78)%Q.
Proof.
  split; [|split].
  - intros o d. unfold calculateStats. unroll_categories. ring.
  - intros o d k v Hk. unfold calculateStats.
    apply addObject_ext. intros c Hc. unfold countOf, setCount. simpl.
    rewrite lookup_insert_ne; [done|]. intros ->. by apply Hk.
  - by vm_compute.
Qed.

Lemma calculateStats_flat_points_witness :
  ("Gita"%string ∉ categories) ∧
  calculateStats (Obj (setCount scenarioA "Gita" 5)) None
  = calculateStats (Obj scenarioA) None.
Proof.
  assert (H : "Gita"%string ∉ categories).
  { unfold categories. intros Hin.
    repeat (apply elem_of_cons in Hin as [Heq|Hin]; [discriminate Heq|]).
    by apply elem_of_nil in Hin. }
  split; [exact H|].
  exact (proj1 (proj2 calculateStats_flat_points) scenarioA None "Gita"%string 5 H).
Defined.

(** C2. With no date filter the totals of a history are the sums of the
    totals of its entries. *)
Theorem calculateStats_history_cumulative (entries : list BookObj) :
  totalBooks (calculateStats (Arr entries) None)
  = sumZ (map (λ e, totalBooks (calculateStats (Obj e) None)) entries) ∧
  (totalPoints (calculateStats (Arr entries) None)
   == sumQ (map (λ e, totalPoints (calculateStats (Obj e) None)) entries))%Q.
Proof.
  unfold calculateStats. cbn [truthy]. split.
  - rewrite fold_addObject_books. cbn [zeroStats totalBooks]. lia.
  - rewrite fold_addObject_points. cbn [zeroStats totalPoints]. ring.
Qed.

(** A filter that keeps nothing leaves the totals at zero. *)
Lemma filter_no_match (d : option string) (entries : list BookObj) :
  Forall (λ e, date e ≠ d) entries →
  filter (λ entry, date entry = d) entries = [].
Proof.
  induction 1 as [|e es Hne _ IH]; [done|].
  rewrite filter_cons. by destruct (decide (date e = d)).
Qed.

(** C3, as amended. For a history and a non-empty date filter that matches
    no entry's date, both totals are zero (the function is total: there is
    no error case). *)
Theorem calculateStats_no_match (entries : list BookObj) (d : string) :
  d ≠ EmptyString →
  Forall (λ e, date e ≠ Some d) entries →
  totalBooks (calculateStats (Arr entries) (Some d)) = 0 ∧
  (totalPoints (calculateStats (Arr entries) (Some d)) == 0)%Q.
Proof.
  intros Hd Hno. unfold calculateStats.
  assert (truthy (Some d) = true) as -> by (by destruct d).
  by rewrite filter_no_match.
Qed.

Lemma calculateStats_no_match_witness :
  totalBooks (calculateStats (Arr oneEntryHistory) (Some "2024-01-02"%string)) = 0 ∧
  (totalPoints (calculateStats (Arr oneEntryHistory) (Some "2024-01-02"%string))
   == 0)%Q.
Proof.
  apply (calculateStats_no_match oneEntryHistory "2024-01-02").
  - discriminate.
  - unfold oneEntryHistory. repeat constructor. simpl. discriminate.
Defined.

(** C3, as stated, fails for the empty date string: it matches no entry,
    yet it selects the cumulative totals. *)
Lemma calculateStats_empty_date_counterexample :
  Forall (λ e, date e ≠ Some EmptyString) oneEntryHistory ∧
  ¬ (totalBooks (calculateStats (Arr oneEntryHistory) (Some EmptyString)) = 0 ∧
     (totalPoints (calculateStats (Arr oneEntryHistory) (Some EmptyString))
      == 0)%Q).
Proof.
  split.
  - unfold oneEntryHistory. repeat constructor. simpl. discriminate.
  - intros [Hb _]. vm_compute in Hb. discriminate Hb.
Qed.

(** The empty date string behaves as no filter at all. *)
Lemma calculateStats_empty_date (entries : list BookObj) :
  calculateStats (Arr entries) (Some EmptyString)
  = calculateStats (Arr entries) None.
Proof. reflexivity. Qed.

(** C10. Flat counts give the same totals whatever the date filter, also
    through [getTeamsWithStats]: a team whose data is a flat object gets the
    full flat totals for every filter. *)
Theorem calculateStats_flat_ignores_date :
  (∀ (o : BookObj) (d1 d2 : option string),
     calculateStats (Obj o) d1 = calculateStats (Obj o) d2) ∧
  (∀ (sel : string) (d : option string) (t : Team) (o : BookObj),
     booksDataOf t = Obj o →
     stats (teamWithStats sel d t) = calculateStats (Obj o) None) ∧
  (∀ (ts : list Team) (sel : string) (d1 d2 : option string),
     Forall (λ t, ∃ o, booksDataOf t = Obj o) ts →
     map stats (getTeamsWithStats ts sel d1)
     = map stats (getTeamsWithStats ts sel d2)).
Proof.
  assert (Hteam : ∀ sel d t o, booksDataOf t = Obj o →
            stats (teamWithStats sel d t) = calculateStats (Obj o) None).
  { intros sel d t o Ho. unfold teamWithStats. rewrite Ho.
    by destruct (negb (truthy (date o))). }
  split; [done|]. split; [exact Hteam|].
  intros ts sel d1 d2 Hall. unfold getTeamsWithStats.
  induction Hall as [|t ts' [o Ho] _ IH]; [done|].
  cbn [map]. rewrite IH. f_equal.
  by rewrite !(Hteam _ _ _ _ Ho).
Qed.

Lemma calculateStats_flat_ignores_date_witness :
  booksDataOf legacyTeam = Obj scenarioA ∧
  stats (teamWithStats "2024-01-01" (Some "2023-12-31"%string) legacyTeam)
  = calculateStats (Obj scenarioA) None.
Proof.
  split; [reflexivity|].
  apply (proj1 (proj2 calculateStats_flat_ignores_date)). reflexivity.
Defined.

(** ** Sorting *)

Section SortFacts.
Context {A : Type} (key : A → Q) (compareFn : A → A → Q).
Hypothesis compare_key :
  ∀ x y, Qle_bool (compareFn x y) 0 = true ↔ (key y <= key x)%Q.

(** [x] may stand before [y]. *)
Let before (x y : A) : Prop := (key y <= key x)%Q.

Lemma sortInsert_perm x l : sortInsert compareFn x l ≡ₚ x :: l.
Proof.
  induction l as [|y l IH]; cbn [sortInsert]; [done|].
  destruct (Qle_bool (compareFn x y) 0); [done|].
  rewrite IH. apply Permutation_swap.
Qed.

Lemma sort_perm l : sort compareFn l ≡ₚ l.
Proof.
  induction l as [|x l IH]; [done|].
  cbn [sort foldr]. rewrite sortInsert_perm. by constructor.
Qed.

Lemma sort_length l : length (sort compareFn l) = length l.
Proof. apply Permutation_length, sort_perm. Qed.

Lemma sortInsert_sorted x l :
  StronglySorted before l → StronglySorted before (sortInsert compareFn x l).
Proof.
  induction 1 as [|y l Hl IH Hy]; cbn [sortInsert].
  - repeat constructor.
  - destruct (Qle_bool (compareFn x y) 0) eqn:Hc.
    + apply compare_key in Hc.
      constructor; [by constructor|].
      constructor; [done|].
      eapply Forall_impl; [exact Hy|].
      intros z Hz. unfold before in *. by apply Qle_trans with (key y).
    + constructor; [done|].
      rewrite sortInsert_perm. constructor; [|done].
      unfold before. apply Qlt_le_weak, Qnot_le_lt.
      intros Hle. apply compare_key in Hle. congruence.
Qed.

Lemma sort_sorted l : StronglySorted before (sort compareFn l).
Proof.
  induction l as [|x l IH]; cbn [sort foldr]; [constructor|].
  by apply sortInsert_sorted.
Qed.

Lemma sorted_lookup l i j a b :
  StronglySorted before l → (i < j)%nat →
  l !! i = Some a → l !! j = Some b → (key b <= key a)%Q.
Proof.
  intros Hs. revert i j. induction Hs as [|x l _ IH Hx]; intros i j Hij Hi Hj.
  - by rewrite lookup_nil in Hi.
  - destruct j as [|j]; [lia|]. cbn in Hj. destruct i as [|i]; cbn in Hi.
    + injection Hi as <-.
      rewrite Forall_forall in Hx. apply Hx.
      by eapply list_elem_of_lookup_2.
    + apply (IH i j); [lia|done..].
Qed.

Lemma lookup_sorted l :
  (∀ i j a b, (i < j)%nat → l !! i = Some a → l !! j = Some b →
              (key b <= key a)%Q) →
  StronglySorted before l.
Proof.
  induction l as [|x l IH]; intros H; constructor.
  - apply IH. intros i j a b Hij Hi Hj. by apply (H (S i) (S j)); [lia|..].
  - apply Forall_forall. intros y Hy.
    apply list_elem_of_lookup_1 in Hy as [j Hj].
    by apply (H 0%nat (S j)); [lia|..].
Qed.

(** A sequence that is already in order is left as it is. *)
Lemma sort_sorted_id l : StronglySorted before l → sort compareFn l = l.
Proof.
  induction 1 as [|x l _ IH Hx]; [done|].
  cbn [sort foldr]. fold (sort compareFn l). rewrite IH.
  destruct l as [|y l]; [done|]. cbn [sortInsert].
  apply Forall_cons_1 in Hx as [Hxy _].
  apply compare_key in Hxy. by rewrite Hxy.
Qed.

(** Stability: insertion only moves [x] past elements with a strictly
    larger key, so elements with one and the same key keep their order. *)
Lemma sortInsert_stable v x l :
  List.filter (λ t, Qeq_bool (key t) v) (sortInsert compareFn x l)
  = List.filter (λ t, Qeq_bool (key t) v) (x :: l).
Proof.
  induction l as [|y l IH]; cbn [sortInsert]; [done|].
  destruct (Qle_bool (compareFn x y) 0) eqn:Hc; [done|].
  cbn [List.filter] in *. rewrite IH.
  destruct (Qeq_bool (key x) v) eqn:Hx; [|done].
  destruct (Qeq_bool (key y) v) eqn:Hy; [|done].
  apply Qeq_bool_iff in Hx, Hy.
  assert (Hle : Qle_bool (compareFn x y) 0 = true); [|congruence].
  apply compare_key. rewrite Hx, Hy. apply Qle_refl.
Qed.

Lemma sort_stable v l :
  List.filter (λ t, Qeq_bool (key t) v) (sort compareFn l)
  = List.filter (λ t, Qeq_bool (key t) v) l.
Proof.
  induction l as [|x l IH]; [done|].
  cbn [sort foldr]. fold (sort compareFn l).
  rewrite sortInsert_stable. cbn [List.filter]. by rewrite IH.
Qed.
Lemma filter_key_head v x l :
  Qeq_bool (key x) v = true →
  List.filter (λ t, Qeq_bool (key t) v) (x :: l)
  = x :: List.filter (λ t, Qeq_bool (key t) v) l.
Proof. intros Hx. cbn [List.filter]. by rewrite Hx. Qed.

(** Two sequences in order that hold, for every key value, the same
    elements with that key in the same order are equal. *)
Lemma sorted_stable_unique l1 l2 :
  StronglySorted before l1 → StronglySorted before l2 →
  (∀ v, List.filter (λ t, Qeq_bool (key t) v) l1
        = List.filter (λ t, Qeq_bool (key t) v) l2) →
  l1 = l2.
Proof.
  intros Hs1. revert l2.
  induction Hs1 as [|x l1 Hs1 IH Hx]; intros l2 Hs2 Hf.
  - destruct l2 as [|y l2]; [done|].
    specialize (Hf (key y)). cbn [List.filter] in Hf.
    by rewrite (proj2 (Qeq_bool_iff _ _) (Qeq_refl (key y))) in Hf.
  - destruct Hs2 as [|y l2 Hs2 Hy].
    { specialize (Hf (key x)). cbn [List.filter] in Hf.
      by rewrite (proj2 (Qeq_bool_iff _ _) (Qeq_refl (key x))) in Hf. }
    assert (Hxx : Qeq_bool (key x) (key x) = true)
      by apply Qeq_bool_iff, Qeq_refl.
    assert (Hyy : Qeq_bool (key y) (key y) = true)
      by apply Qeq_bool_iff, Qeq_refl.
    assert (Hle1 : (key x <= key y)%Q).
    { pose proof (Hf (key x)) as H. rewrite filter_key_head in H by done.
      assert (Hin : In x (List.filter (λ t, Qeq_bool (key t) (key x)) (y :: l2)))
        by (rewrite <- H; by left).
      apply filter_In in Hin as [[<-|Hin] _]; [apply Qle_refl|].
      rewrite Forall_forall in Hy. by apply Hy, list_elem_of_In. }
    assert (Hle2 : (key y <= key x)%Q).
    { pose proof (Hf (key y)) as H.
      rewrite (filter_key_head (key y) y) in H by done.
      assert (Hin : In y (List.filter (λ t, Qeq_bool (key t) (key y)) (x :: l1)))
        by (rewrite H; by left).
      apply filter_In in Hin as [[<-|Hin] _]; [apply Qle_refl|].
      rewrite Forall_forall in Hx. by apply Hx, list_elem_of_In. }
    assert (Hxy : (key x == key y)%Q) by by apply Qle_antisym.
    assert (Hhead : x = y).
    { pose proof (Hf (key x)) as H.
      rewrite filter_key_head in H by done.
      rewrite (filter_key_head (key x) y) in H
        by (apply Qeq_bool_iff; by symmetry).
      by injection H. }
    subst y. f_equal. apply IH; [done|]. intros v.
    pose proof (Hf v) as H. cbn [List.filter] in H.
    destruct (Qeq_bool (key x) v); [by injection H|done].
Qed.

(** The model is forced: a sequence in order that keeps, for every key
    value, the elements with that key in their input order is the result of
    [sort].  Whatever stable algorithm an engine runs, it returns this
    sequence. *)
Lemma sort_unique l l' :
  StronglySorted before l' →
  (∀ v, List.filter (λ t, Qeq_bool (key t) v) l'
        = List.filter (λ t, Qeq_bool (key t) v) l) →
  l' = sort compareFn l.
Proof.
  intros Hs Hf. apply sorted_stable_unique; [done|apply sort_sorted|].
  intros v. by rewrite sort_stable.
Qed.
End SortFacts.

Lemma compareTeams_key sortBy x y :
  Qle_bool (compareTeams sortBy x y) 0 = true
  ↔ (selectedStat sortBy y <= selectedStat sortBy x)%Q.
Proof.
  rewrite Qle_bool_iff. unfold compareTeams, selectedStat.
  destruct (bool_decide (sortBy = "points")).
  - split; intros H.
    + apply (Qplus_le_l _ _ (- totalPoints (stats x))).
      rewrite Qplus_opp_r. exact H.
    + apply (Qplus_le_l _ _ (- totalPoints (stats x))) in H.
      rewrite Qplus_opp_r in H. exact H.
  - rewrite <- !Zle_Qle. change 0%Q with (inject_Z 0).
    rewrite <- Zle_Qle. lia.
Qed.

(** Any sorted sequence is in descending order of the selected statistic. *)
Lemma sort_by_selectedStat (sortBy : string) (l : list TeamWithStats)
    (i j : nat) (a b : TeamWithStats) :
  (i < j)%nat →
  sort (compareTeams sortBy) l !! i = Some a →
  sort (compareTeams sortBy) l !! j = Some b →
  (selectedStat sortBy b <= selectedStat sortBy a)%Q.
Proof.
  intros Hij Hi Hj.
  eapply (sorted_lookup (selectedStat sortBy)); [|exact Hij|exact Hi|exact Hj].
  apply (sort_sorted _ _ (compareTeams_key sortBy)).
Qed.

Lemma selectedStat_cases (sortBy : string) (a b : TeamWithStats) :
  (selectedStat sortBy b <= selectedStat sortBy a)%Q →
  (sortBy = "points"%string →
     (totalPoints (stats b) <= totalPoints (stats a))%Q) ∧
  (sortBy ≠ "points"%string →
     totalBooks (stats b) ≤ totalBooks (stats a)).
Proof.
  unfold selectedStat. intros H. split; intros Hs.
  - by rewrite bool_decide_eq_true_2 in H.
  - rewrite bool_decide_eq_false_2 in H by done. by rewrite Zle_Qle.
Qed.

(** C7. For every sequence of teams and every value of [sortBy], the sorted
    sequence is in descending order of the selected statistic at every pair
    of positions [i < j]: by points for ["points"], by books for any other
    value.  There is no ascending mode. *)
Theorem sort_descending (sortBy : string) (l : list TeamWithStats)
    (i j : nat) (a b : TeamWithStats) :
  (i < j)%nat →
  sort (compareTeams sortBy) l !! i = Some a →
  sort (compareTeams sortBy) l !! j = Some b →
  (sortBy = "points"%string →
     (totalPoints (stats b) <= totalPoints (stats a))%Q) ∧
  (sortBy ≠ "points"%string →
     totalBooks (stats b) ≤ totalBooks (stats a)).
Proof.
  intros Hij Hi Hj. apply selectedStat_cases.
  by apply (sort_by_selectedStat sortBy l i j).
Qed.

Lemma sort_descending_witness :
  ∃ a b,
    getFilteredTeams sampleState !! 0%nat = Some a ∧
    getFilteredTeams sampleState !! 1%nat = Some b ∧
    (totalPoints (stats b) <= totalPoints (stats a))%Q.
Proof.
  eexists _, _. split; [reflexivity|]. split; [reflexivity|].
  apply (sort_descending "points"
           (filterByLeader "all"
              (filterByName ""
                 (getTeamsWithStats (teams sampleState) "2024-01-01"
                    (Some "2024-01-01"%string)))) 0 1);
    [lia|reflexivity|reflexivity|reflexivity].
Defined.

(** The ranked view itself is such a sorted sequence. *)
Lemma getFilteredTeams_descending (st : AppState) (i j : nat)
    (a b : TeamWithStats) :
  (i < j)%nat →
  getFilteredTeams st !! i = Some a →
  getFilteredTeams st !! j = Some b →
  (sortBy st = "points"%string →
     (totalPoints (stats b) <= totalPoints (stats a))%Q) ∧
  (sortBy st ≠ "points"%string →
     totalBooks (stats b) ≤ totalBooks (stats a)).
Proof.
  intros Hij Hi Hj. apply selectedStat_cases.
  by eapply (sort_by_selectedStat (sortBy st) _ i j).
Qed.

(** C8. Sorting is idempotent and stable: a sequence already in descending
    order of the key is returned unchanged, so sorting twice is sorting
    once; two teams with equal keys stay in their input order, and more
    generally the teams that share a key value keep their relative order. *)
Theorem sort_idempotent_stable (sortBy : string) :
  (∀ l : list TeamWithStats,
     (∀ i j a b, (i < j)%nat → l !! i = Some a → l !! j = Some b →
        (selectedStat sortBy b <= selectedStat sortBy a)%Q) →
     sort (compareTeams sortBy) l = l) ∧
  (∀ l : list TeamWithStats,
     sort (compareTeams sortBy) (sort (compareTeams sortBy) l)
     = sort (compareTeams sortBy) l) ∧
  (∀ a b : TeamWithStats,
     (selectedStat sortBy a == selectedStat sortBy b)%Q →
     sort (compareTeams sortBy) [a; b] = [a; b]) ∧
  (∀ (l : list TeamWithStats) (v : Q),
     List.filter (λ t, Qeq_bool (selectedStat sortBy t) v)
       (sort (compareTeams sortBy) l)
     = List.filter (λ t, Qeq_bool (selectedStat sortBy t) v) l).
Proof.
  pose proof (compareTeams_key sortBy) as Hk.
  assert (Hid : ∀ l : list TeamWithStats,
     (∀ i j a b, (i < j)%nat → l !! i = Some a → l !! j = Some b →
        (selectedStat sortBy b <= selectedStat sortBy a)%Q) →
     sort (compareTeams sortBy) l = l).
  { intros l Hl. apply (sort_sorted_id _ _ Hk). by apply lookup_sorted. }
  split; [exact Hid|]. split; [|split].
  - intros l. apply Hid. intros i j a b.
    apply (sorted_lookup (selectedStat sortBy)), (sort_sorted _ _ Hk).
  - intros a b Hab. apply Hid. intros i j x y Hij Hi Hj.
    destruct i as [|[|i]], j as [|[|j]]; try lia; try done.
    injection Hi as <-. injection Hj as <-. rewrite Hab. apply Qle_refl.
  - intros l v. apply (sort_stable _ _ Hk).
Qed.

Lemma sort_idempotent_stable_witness :
  let a := teamWithStats "2024-01-01" None teamBeta in
  let b := teamWithStats "2024-01-02" None teamBeta in
  (selectedStat "points" a == selectedStat "points" b)%Q ∧
  sort (compareTeams "points") [a; b] = [a; b].
Proof.
  split; [reflexivity|].
  apply (proj1 (proj2 (proj2 (sort_idempotent_stable "points")))).
  reflexivity.
Defined.

(** ** Filtering *)

Lemma filter_swap {A} (p q : A → bool) (l : list A) :
  List.filter p (List.filter q l) = List.filter q (List.filter p l).
Proof.
  induction l as [|x l IH]; [done|]. cbn [List.filter].
  destruct (q x) eqn:Hq, (p x) eqn:Hp; cbn [List.filter];
    rewrite ?Hq, ?Hp, IH; done.
Qed.

(** Scenario B: searching "Alpha" among "Alpha Squad" and "Beta Team". *)
Lemma scenarioB_search :
  map (λ t, name (team t))
    (getFilteredTeams
       (mkAppState [legacyTeam; teamBeta] "Alpha" "all" "points" "2024-01-01"))
  = ["Alpha Squad"%string].
Proof. reflexivity. Qed.

(** Scenario C: the leader filter "all" excludes no team. *)
Lemma scenarioC_all (l : list TeamWithStats) : filterByLeader "all" l = l.
Proof. reflexivity. Qed.

(** C9. The name filter and the leader filter commute: either order gives
    the same sequence of teams, hence the same set. *)
Theorem filters_commute (searchTerm filterLeader : string)
    (l : list TeamWithStats) :
  filterByLeader filterLeader (filterByName searchTerm l)
  = filterByName searchTerm (filterByLeader filterLeader l).
Proof.
  unfold filterByLeader, filterByName.
  destruct (negb (bool_decide (filterLeader = "all"))),
    (truthy (Some searchTerm)); try done.
  apply filter_swap.
Qed.

(** ** The per-category adjustment *)

Lemma updatedBooks_count t bookType delta :
  counts (updatedBooks t bookType delta) !! bookType
  = Some (Z.max 0 (countOf (default emptyObj (books t)) bookType + delta)).
Proof. unfold updatedBooks, setCount. cbn [counts]. apply lookup_insert_eq. Qed.

Lemma updatedBooks_nonNegative t bookType delta :
  teamNonNegative t → nonNegative (updatedBooks t bookType delta).
Proof.
  intros Ht. unfold updatedBooks, setCount, nonNegative. cbn [counts].
  apply map_Forall_insert_2; [lia|].
  destruct (books t) as [b|] eqn:Hb; cbn [default].
  - by apply Ht.
  - apply map_Forall_empty.
Qed.

Lemma find_some_id (ts : list Team) tid t :
  find (λ t, bool_decide (id t = tid)) ts = Some t → t ∈ ts ∧ id t = tid.
Proof.
  intros H. apply find_some in H as [Hin Hid].
  split; [by apply list_elem_of_In|]. by apply bool_decide_eq_true in Hid.
Qed.

Lemma find_none_id (ts : list Team) tid t :
  find (λ t, bool_decide (id t = tid)) ts = None → t ∈ ts → id t ≠ tid.
Proof.
  intros H Hin Hid. apply list_elem_of_In in Hin.
  pose proof (find_none _ _ H t Hin) as Hf. cbn in Hf.
  by rewrite bool_decide_eq_true_2 in Hf.
Qed.

(** C5. The adjustment never stores a negative count: in the new state and
    in the persisted write the adjusted count is [max 0 (old + delta)], hence
    0 whenever the delta would take it below zero, and if all counts were
    non-negative before they all are afterwards. *)
Theorem handleUpdateBookCount_clamped (ts : list Team)
    (teamId bookType : string) (delta : Z) :
  let result := handleUpdateBookCount ts teamId bookType delta in
  (∀ t', t' ∈ result.1 → id t' = teamId →
     ∃ b, books t' = Some b ∧ 0 ≤ countOf b bookType) ∧
  (∀ t, find (λ t, bool_decide (id t = teamId)) ts = Some t →
     ∃ b, result.2 = Some (teamId, b) ∧
          countOf b bookType
          = Z.max 0 (countOf (default emptyObj (books t)) bookType + delta) ∧
          0 ≤ countOf b bookType ∧
          (countOf (default emptyObj (books t)) bookType + delta ≤ 0 →
           countOf b bookType = 0)) ∧
  (Forall teamNonNegative ts →
     Forall teamNonNegative result.1 ∧
     ∀ tid b, result.2 = Some (tid, b) → nonNegative b).
Proof.
  cbn zeta. unfold handleUpdateBookCount.
  destruct (find _ ts) as [t|] eqn:Hfind; cbn [fst snd].
  - assert (Hc : countOf (updatedBooks t bookType delta) bookType
             = Z.max 0 (countOf (default emptyObj (books t)) bookType + delta)).
    { unfold countOf at 1. by rewrite updatedBooks_count. }
    apply find_some_id in Hfind as [Hin Hid].
    split; [|split].
    + intros t' Hin' Hid'. apply list_elem_of_fmap in Hin' as (t0 & -> & Hin0).
      destruct (bool_decide (id t0 = teamId)) eqn:Hd.
      * eexists. split; [reflexivity|]. rewrite Hc. lia.
      * apply bool_decide_eq_false in Hd. done.
    + intros t0 [= <-]. eexists. split; [reflexivity|].
      rewrite Hc. repeat split; lia.
    + intros Hall. rewrite Forall_forall in Hall. split.
      * apply Forall_forall. intros t' Hin'.
        apply list_elem_of_fmap in Hin' as (t0 & -> & Hin0).
        destruct (bool_decide (id t0 = teamId)); [|by apply Hall].
        intros b [= <-]. apply updatedBooks_nonNegative. by apply Hall.
      * intros tid b [= <- <-]. apply updatedBooks_nonNegative. by apply Hall.
  - split; [|split].
    + intros t' Hin' Hid'. by destruct (find_none_id _ _ _ Hfind Hin').
    + intros t [=].
    + intros Hall. split; [done|]. intros tid b [=].
Qed.

(** Scenario D: one more MBB taken from a team that has none left. *)
Lemma handleUpdateBookCount_clamped_witness :
  Forall teamNonNegative [teamBeta] ∧
  Forall teamNonNegative
    (handleUpdateBookCount [teamBeta] "t2" "MBB" (-1)).1.
Proof.
  assert (H : Forall teamNonNegative [teamBeta]).
  { repeat constructor. intros b [=]. }
  split; [exact H|].
  apply (proj1 (proj2 (proj2
    (handleUpdateBookCount_clamped [teamBeta] "t2" "MBB" (-1))) H)).
Defined.

(** ** The dated bulk update *)

Lemma entriesOn_cons d e h :
  entriesOn d (e :: h)
  = ((if decide (date e = Some d) then 1 else 0) + entriesOn d h)%nat.
Proof.
  unfold entriesOn. rewrite filter_cons. by destruct (decide (date e = Some d)).
Qed.

Lemma entriesOn_zero d h :
  entriesOn d h = 0%nat ↔ Forall (λ e, date e ≠ Some d) h.
Proof.
  induction h as [|e h IH]; [by split; [constructor|]|].
  rewrite entriesOn_cons, Forall_cons. destruct (decide (date e = Some d)).
  - split; [lia|]. by intros [? _].
  - rewrite <- IH. split; [by split|by intros [_ ?]].
Qed.

(** [upsertEntry] by recursion on the history. *)
Lemma upsertEntry_nil d b : upsertEntry d b [] = [mkBookObj (Some d) b].
Proof. reflexivity. Qed.

Lemma upsertEntry_cons d b e h :
  upsertEntry d b (e :: h)
  = if decide (date e = Some d) then mkBookObj (Some d) b :: h
    else e :: upsertEntry d b h.
Proof.
  unfold upsertEntry, findIndex. cbn [list_find].
  destruct (decide (date e = Some d)); [done|].
  destruct (list_find _ h) as [[i x]|]; done.
Qed.

Lemma entriesOn_upsert_same d b h :
  entriesOn d (upsertEntry d b h) = Nat.max 1 (entriesOn d h).
Proof.
  induction h as [|e h IH].
  { rewrite upsertEntry_nil, entriesOn_cons. cbn [date].
    by rewrite decide_True. }
  rewrite upsertEntry_cons. destruct (decide (date e = Some d)) as [He|He].
  - rewrite !entriesOn_cons. cbn [date].
    rewrite !decide_True by done. lia.
  - rewrite !entriesOn_cons, IH. rewrite !decide_False by done. lia.
Qed.

Lemma entriesOn_upsert_other d d' b h :
  d' ≠ d → entriesOn d' (upsertEntry d b h) = entriesOn d' h.
Proof.
  intros Hne. induction h as [|e h IH].
  - rewrite upsertEntry_nil, !entriesOn_cons. cbn [date].
    rewrite decide_False; [done|]. intros [= ->]. done.
  - rewrite upsertEntry_cons. destruct (decide (date e = Some d)) as [He|He].
    + rewrite !entriesOn_cons. cbn [date]. rewrite He.
      rewrite !decide_False; [done|by intros [= ->]..].
    + by rewrite !entriesOn_cons, IH.
Qed.

Lemma upsertEntry_onePerDate d b h :
  onePerDate h → onePerDate (upsertEntry d b h).
Proof.
  intros Hh d'. destruct (decide (d' = d)) as [->|Hne].
  - rewrite entriesOn_upsert_same. specialize (Hh d). lia.
  - rewrite entriesOn_upsert_other by done. apply Hh.
Qed.

(** The entry for the date is overwritten in place when there is one... *)
Lemma upsertEntry_existing d b h :
  ¬ Forall (λ e, date e ≠ Some d) h →
  ∃ i e, h !! i = Some e ∧ date e = Some d ∧
         (∀ j e', (j < i)%nat → h !! j = Some e' → date e' ≠ Some d) ∧
         upsertEntry d b h = <[i := mkBookObj (Some d) b]> h.
Proof.
  intros Hex. unfold upsertEntry, findIndex.
  destruct (list_find _ h) as [[i e]|] eqn:Hf; cbn [fmap option_fmap option_map fst].
  - apply list_find_Some in Hf as (Hi & He & Hbefore).
    exists i, e. repeat split; try done.
    intros j e' Hj Hje'. by eapply Hbefore.
  - apply list_find_None in Hf. done.
Qed.

(** ... and exactly one entry is appended when there is none. *)
Lemma upsertEntry_fresh d b h :
  Forall (λ e, date e ≠ Some d) h →
  upsertEntry d b h = h ++ [mkBookObj (Some d) b].
Proof.
  intros Hno. unfold upsertEntry, findIndex.
  destruct (list_find _ h) as [[i e]|] eqn:Hf; [|done].
  apply list_find_Some in Hf as (Hi & He & _).
  rewrite Forall_forall in Hno. destruct (Hno e); [|done].
  by eapply list_elem_of_lookup_2.
Qed.

Lemma mutateHistory_invariant tid h ts :
  onePerDate h → Forall teamOnePerDate ts →
  Forall teamOnePerDate (mutateHistory tid h ts).
Proof.
  intros Hh. induction 1 as [|t ts Ht Hts IH]; cbn [mutateHistory]; [done|].
  destruct (bool_decide (id t = tid)).
  - constructor; [|done]. by intros h' [= <-].
  - by constructor.
Qed.

Lemma onePerDate_nil : onePerDate [].
Proof. intros d. cbn. lia. Qed.

Lemma onePerDate_singleton e : onePerDate [e].
Proof. intros d. rewrite entriesOn_cons. destruct (decide _); cbn; lia. Qed.

Lemma scoreUpdateStep_invariant today ts u ts' w :
  Forall teamOnePerDate ts →
  scoreUpdateStep today ts u = Some (ts', w) →
  Forall teamOnePerDate ts' ∧ onePerDate (writeHistory w).
Proof.
  intros Hts. unfold scoreUpdateStep.
  destruct (find _ ts) as [t|] eqn:Hfind; [|done].
  apply find_some_id in Hfind as [Hin _].
  assert (Ht : teamOnePerDate t) by (by eapply Forall_forall in Hts).
  destruct (booksHistory t) as [[o|h]|] eqn:Hh; intros [= <- <-];
    cbn [writeHistory].
  - split; [done|]. apply upsertEntry_onePerDate, onePerDate_singleton.
  - assert (Hh' : onePerDate (upsertEntry (updDate u) (updBooks u) h)).
    { apply upsertEntry_onePerDate. by apply Ht. }
    split; [|done]. by apply mutateHistory_invariant.
  - split; [done|]. apply upsertEntry_onePerDate, onePerDate_nil.
Qed.

Lemma scoreUpdateLoop_invariant today resolves updates ts writes :
  updateInvariant ts writes →
  updateInvariant
    (runTeams (scoreUpdateLoop today resolves updates ts writes))
    (runWrites (scoreUpdateLoop today resolves updates ts writes)).
Proof.
  revert ts writes.
  induction updates as [|u us IH]; intros ts writes Hs; [done|].
  cbn [scoreUpdateLoop].
  destruct (scoreUpdateStep today ts u) as [[ts' w]|] eqn:Hstep; [|by apply IH].
  destruct Hs as [Hts Hws].
  destruct (scoreUpdateStep_invariant today ts u ts' w Hts Hstep) as [Hts' Hw].
  assert (Hs' : updateInvariant ts' (writes ++ [w])).
  { split; [done|]. apply Forall_app. split; [done|].
    by apply Forall_singleton. }
  destruct (resolves (length writes)); [by apply IH|done].
Qed.

(** The handler and the history of one team. *)
Lemma find_mutateHistory_same tid h ts t :
  find (λ t', bool_decide (id t' = tid)) ts = Some t →
  find (λ t', bool_decide (id t' = tid)) (mutateHistory tid h ts)
  = Some (setHistory t h).
Proof.
  induction ts as [|t0 ts IH]; [done|]. cbn [find mutateHistory].
  destruct (bool_decide (id t0 = tid)) eqn:Hid.
  - intros [= ->]. cbn [find setHistory id]. by rewrite Hid.
  - intros Hfind. cbn [find]. rewrite Hid. by apply IH.
Qed.

Lemma find_mutateHistory_other tid tid' h ts :
  tid' ≠ tid →
  find (λ t', bool_decide (id t' = tid')) (mutateHistory tid h ts)
  = find (λ t', bool_decide (id t' = tid')) ts.
Proof.
  intros Hne. induction ts as [|t0 ts IH]; [done|]. cbn [find mutateHistory].
  destruct (bool_decide (id t0 = tid)) eqn:Hid.
  - apply bool_decide_eq_true in Hid. cbn [find setHistory id].
    by rewrite !bool_decide_eq_false_2 by congruence.
  - cbn [find]. by rewrite IH.
Qed.

Lemma scoreUpdateStep_other today ts u ts' w tid :
  scoreUpdateStep today ts u = Some (ts', w) →
  writeId w = teamId u ∧
  (tid ≠ teamId u →
   find (λ t', bool_decide (id t' = tid)) ts'
   = find (λ t', bool_decide (id t' = tid)) ts).
Proof.
  unfold scoreUpdateStep.
  destruct (find _ ts) as [t|]; [|done].
  destruct (booksHistory t) as [[o|h]|]; intros [= <- <-];
    (split; [done|]); intros Hne; try done.
  by apply find_mutateHistory_other.
Qed.

Lemma scoreUpdateStep_array today ts u t h :
  find (λ t', bool_decide (id t' = teamId u)) ts = Some t →
  booksHistory t = Some (Arr h) →
  scoreUpdateStep today ts u
  = Some (mutateHistory (teamId u)
            (upsertEntry (updDate u) (updBooks u) h) ts,
          mkTeamWrite (teamId u)
            (upsertEntry (updDate u) (updBooks u) h) (updBooks u)).
Proof. intros Hfind Hh. unfold scoreUpdateStep. by rewrite Hfind, Hh. Qed.

(** A team that no update names is not touched, and nothing is written
    for it. *)
Lemma scoreUpdateLoop_other today resolves updates ts writes tid :
  tid ∉ map teamId updates →
  find (λ t', bool_decide (id t' = tid))
    (runTeams (scoreUpdateLoop today resolves updates ts writes))
  = find (λ t', bool_decide (id t' = tid)) ts ∧
  filter (λ w, writeId w = tid)
    (runWrites (scoreUpdateLoop today resolves updates ts writes))
  = filter (λ w, writeId w = tid) writes.
Proof.
  revert ts writes.
  induction updates as [|u us IH]; intros ts writes Hnot; [done|].
  cbn [map] in Hnot. apply not_elem_of_cons in Hnot as [Hne Hnot].
  cbn [scoreUpdateLoop].
  destruct (scoreUpdateStep today ts u) as [[ts' w]|] eqn:Hstep; [|by apply IH].
  destruct (scoreUpdateStep_other today ts u ts' w tid Hstep) as [Hw Hfind].
  assert (Hws : filter (λ w, writeId w = tid) (writes ++ [w])
                = filter (λ w, writeId w = tid) writes).
  { rewrite filter_app, filter_cons_False by congruence.
    by rewrite filter_nil, app_nil_r. }
  destruct (resolves (length writes)).
  - destruct (IH ts' (writes ++ [w]) Hnot) as [-> ->].
    by rewrite Hfind, Hws.
  - cbn [runTeams runWrites]. by rewrite Hfind, Hws.
Qed.

(** The update number [k] reaches the team it names when the calls before
    it resolve: the team then holds the history with the entry put in, and
    that history is what is written for it. *)
Lemma scoreUpdateLoop_update today resolves updates ts writes k u t h :
  NoDup (map teamId updates) →
  updates !! k = Some u →
  find (λ t', bool_decide (id t' = teamId u)) ts = Some t →
  booksHistory t = Some (Arr h) →
  (∀ j, (j < k)%nat → resolves (length writes + j)%nat = true) →
  find (λ t', bool_decide (id t' = teamId u))
    (runTeams (scoreUpdateLoop today resolves updates ts writes))
  = Some (setHistory t (upsertEntry (updDate u) (updBooks u) h)) ∧
  filter (λ w, writeId w = teamId u)
    (runWrites (scoreUpdateLoop today resolves updates ts writes))
  = filter (λ w, writeId w = teamId u) writes
    ++ [mkTeamWrite (teamId u)
          (upsertEntry (updDate u) (updBooks u) h) (updBooks u)].
Proof.
  revert ts writes k.
  induction updates as [|u0 us IH]; intros ts writes k Hnd Hk Hfind Hh Hres;
    [done|].
  cbn [map] in Hnd. apply NoDup_cons in Hnd as [Hfresh Hnd].
  cbn [scoreUpdateLoop]. destruct k as [|k]; cbn in Hk.
  - injection Hk as ->.
    rewrite (scoreUpdateStep_array today ts u t h Hfind Hh).
    set (h' := upsertEntry (updDate u) (updBooks u) h).
    assert (Hws : filter (λ w, writeId w = teamId u)
                    (writes ++ [mkTeamWrite (teamId u) h' (updBooks u)])
                  = filter (λ w, writeId w = teamId u) writes
                    ++ [mkTeamWrite (teamId u) h' (updBooks u)]).
    { by rewrite filter_app, filter_cons_True, filter_nil by done. }
    pose proof (find_mutateHistory_same (teamId u) h' ts t Hfind) as Hfind'.
    destruct (resolves (length writes)); [|done].
    destruct (scoreUpdateLoop_other today resolves us
                (mutateHistory (teamId u) h' ts)
                (writes ++ [mkTeamWrite (teamId u) h' (updBooks u)])
                (teamId u) Hfresh) as [-> ->].
    done.
  - assert (Hne : teamId u ≠ teamId u0).
    { intros Heq. apply Hfresh. rewrite <- Heq.
      apply list_elem_of_fmap_2. by eapply list_elem_of_lookup_2. }
    destruct (scoreUpdateStep today ts u0) as [[ts' w0]|] eqn:Hstep.
    + destruct (scoreUpdateStep_other today ts u0 ts' w0 (teamId u) Hstep)
        as [Hw0 Hfind0].
      assert (Hr0 : resolves (length writes) = true).
      { rewrite <- (Nat.add_0_r (length writes)). apply Hres. lia. }
      rewrite Hr0.
      destruct (IH ts' (writes ++ [w0]) k Hnd Hk) as [-> ->].
      * by rewrite Hfind0.
      * done.
      * intros j Hj. rewrite length_app. cbn [length].
        replace (length writes + 1 + j)%nat with (length writes + S j)%nat
          by lia.
        apply Hres. lia.
      * split; [done|].
        rewrite filter_app, filter_cons_False by congruence.
        by rewrite filter_nil, app_nil_r.
    + apply (IH ts writes k); try done. intros j Hj. apply Hres. lia.
Qed.

(** C6. The bulk update keeps "at most one entry per date".  On a history
    with that property, an existing entry for the date is overwritten at its
    own position (the length is unchanged), otherwise exactly one entry is
    appended; afterwards there is exactly one entry for the date and still
    at most one for any other.  The handler does just this to the history
    of every team that one of its updates names and reaches (the calls of
    [updateTeam] before it resolve, and no other update names the team):
    the team then holds the history with the entry put in, that history is
    the one written for the team, and it is written once; a team that no
    update names keeps its history and is not written.  So every run of the
    handler, also one that a rejected call cuts short, leaves every team's
    history, and every history it wrote, with one entry per date. *)
Theorem bulk_update_onePerDate :
  (∀ (d : string) (b : BookCounts) (h : list BookObj),
     onePerDate h →
     onePerDate (upsertEntry d b h) ∧
     entriesOn d (upsertEntry d b h) = 1%nat ∧
     (¬ Forall (λ e, date e ≠ Some d) h →
        ∃ i e, h !! i = Some e ∧ date e = Some d ∧
               upsertEntry d b h = <[i := mkBookObj (Some d) b]> h ∧
               length (upsertEntry d b h) = length h) ∧
     (Forall (λ e, date e ≠ Some d) h →
        upsertEntry d b h = h ++ [mkBookObj (Some d) b])) ∧
  (∀ (today : string) (resolves : nat → bool) (ts : list Team)
     (updates : list ScoreUpdate) (k : nat) (u : ScoreUpdate) (t : Team)
     (h : list BookObj),
     NoDup (map teamId updates) →
     updates !! k = Some u →
     find (λ t', bool_decide (id t' = teamId u)) ts = Some t →
     booksHistory t = Some (Arr h) →
     (∀ j, (j < k)%nat → resolves j = true) →
     find (λ t', bool_decide (id t' = teamId u))
       (runTeams (onUpdate today resolves ts updates))
     = Some (setHistory t (upsertEntry (updDate u) (updBooks u) h)) ∧
     filter (λ w, writeId w = teamId u)
       (runWrites (onUpdate today resolves ts updates))
     = [mkTeamWrite (teamId u)
          (upsertEntry (updDate u) (updBooks u) h) (updBooks u)]) ∧
  (∀ (today : string) (resolves : nat → bool) (ts : list Team)
     (updates : list ScoreUpdate) (tid : string),
     tid ∉ map teamId updates →
     find (λ t', bool_decide (id t' = tid))
       (runTeams (onUpdate today resolves ts updates))
     = find (λ t', bool_decide (id t' = tid)) ts ∧
     filter (λ w, writeId w = tid)
       (runWrites (onUpdate today resolves ts updates)) = []) ∧
  (∀ (today : string) (resolves : nat → bool) (ts : list Team)
     (updates : list ScoreUpdate),
     Forall teamOnePerDate ts →
     Forall teamOnePerDate (runTeams (onUpdate today resolves ts updates)) ∧
     Forall (λ w, onePerDate (writeHistory w))
       (runWrites (onUpdate today resolves ts updates))).
Proof.
  split; [|split; [|split]].
  - intros d b h Hh. split; [by apply upsertEntry_onePerDate|].
    split; [|split].
    + rewrite entriesOn_upsert_same. specialize (Hh d). lia.
    + intros Hex. destruct (upsertEntry_existing d b h Hex)
        as (i & e & Hi & He & _ & Hup).
      exists i, e. repeat split; try done.
      rewrite Hup. apply length_insert.
    + apply upsertEntry_fresh.
  - intros today resolves ts updates k u t h Hnd Hk Hfind Hh Hres.
    unfold onUpdate.
    by apply (scoreUpdateLoop_update today resolves updates ts [] k u t h).
  - intros today resolves ts updates tid Hnot. unfold onUpdate.
    by apply (scoreUpdateLoop_other today resolves updates ts [] tid).
  - intros today resolves ts updates Hts. unfold onUpdate.
    apply scoreUpdateLoop_invariant. by split.
Qed.

Lemma bulk_update_onePerDate_witness :
  onePerDate oneEntryHistory ∧
  onePerDate (upsertEntry "2024-01-01" {[ "CC"%string := 2 ]} oneEntryHistory) ∧
  entriesOn "2024-01-01"
    (upsertEntry "2024-01-01" {[ "CC"%string := 2 ]} oneEntryHistory) = 1%nat ∧
  filter (λ w, writeId w = "t2"%string)
    (runWrites
       (onUpdate "2024-02-02" (λ _, true) [legacyTeam; teamBeta]
          [mkScoreUpdate "t1" "2024-01-01" {[ "MBB"%string := 1 ]};
           mkScoreUpdate "t2" "2024-01-01" {[ "CC"%string := 2 ]}]))
  = [mkTeamWrite "t2"
       (upsertEntry "2024-01-01" {[ "CC"%string := 2 ]} oneEntryHistory)
       {[ "CC"%string := 2 ]}].
Proof.
  assert (H : onePerDate oneEntryHistory) by apply onePerDate_singleton.
  split; [exact H|].
  destruct (proj1 bulk_update_onePerDate "2024-01-01"%string
              {[ "CC"%string := 2 ]} oneEntryHistory H) as (H1 & H2 & _).
  split; [exact H1|]. split; [exact H2|].
  refine (proj2 (proj1 (proj2 bulk_update_onePerDate) "2024-02-02"%string
                   (λ _, true) [legacyTeam; teamBeta]
                   [mkScoreUpdate "t1" "2024-01-01" {[ "MBB"%string := 1 ]};
                    mkScoreUpdate "t2" "2024-01-01" {[ "CC"%string := 2 ]}]
                   1%nat (mkScoreUpdate "t2" "2024-01-01" {[ "CC"%string := 2 ]})
                   teamBeta oneEntryHistory _ eq_refl eq_refl eq_refl _)).
  - apply (bool_decide_unpack _). by vm_compute.
  - reflexivity.
Defined.

(** ** The CSV text *)

Lemma contains_app c s1 s2 :
  contains c (s1 +:+ s2) = contains c s1 || contains c s2.
Proof.
  induction s1 as [|a s1 IH]; [done|].
  simpl. rewrite IH. by rewrite orb_assoc.
Qed.

Lemma contains_join c sep parts :
  contains c sep = false →
  Forall (λ s, contains c s = false) parts →
  contains c (join sep parts) = false.
Proof.
  intros Hsep. induction 1 as [|s parts Hs Hparts IH]; [done|].
  unfold join in *. cbn [String.concat].
  destruct parts as [|s' parts]; [done|].
  by rewrite !contains_app, Hs, Hsep, IH.
Qed.

Lemma split_absent c s : contains c s = false → split c s = [s].
Proof.
  induction s as [|a s IH]; [done|]. cbn [contains split].
  destruct (bool_decide (a = c)); [done|]. cbn [orb].
  intros Hs. by rewrite IH.
Qed.

Lemma split_app c s rest :
  contains c s = false →
  split c (s +:+ String c rest) = s :: split c rest.
Proof.
  induction s as [|a s IH]; simpl.
  - intros _. by rewrite bool_decide_eq_true_2.
  - destruct (bool_decide (a = c)); [done|]. simpl.
    intros Hs. by rewrite IH.
Qed.

(** Splitting a joined text gives back the parts, provided no part contains
    the separator. *)
Lemma split_join c parts :
  parts ≠ [] →
  Forall (λ s, contains c s = false) parts →
  split c (join (String c EmptyString) parts) = parts.
Proof.
  intros Hne Hall. induction Hall as [|s parts Hs Hparts IH]; [done|].
  unfold join in *. cbn [String.concat].
  destruct parts as [|s' parts]; [by apply split_absent|].
  etrans.
  { by apply (split_app c s
                (String.concat (String c EmptyString) (s' :: parts))). }
  f_equal. by apply IH.
Qed.

Lemma isDigit_pretty_N_char k : isDigit (pretty_N_char k) = true.
Proof. unfold pretty_N_char. by repeat case_match. Qed.

Lemma contains_pretty_N_go c x s :
  isDigit c = false → contains c s = false →
  contains c (pretty_N_go x s) = false.
Proof.
  intros Hc. revert s. induction (N.lt_wf_0 x) as [x _ IH]; intros s Hs.
  destruct (decide (x = 0)%N) as [->|Hx]; [by rewrite pretty_N_go_0|].
  rewrite pretty_N_go_step by lia. apply IH; [apply N.div_lt; lia|].
  cbn [contains]. rewrite Hs, orb_false_r. apply bool_decide_eq_false_2.
  intros Heq. rewrite <- Heq, isDigit_pretty_N_char in Hc. discriminate.
Qed.

Lemma contains_pretty_N c (x : N) :
  isDigit c = false → contains c (pretty x) = false.
Proof.
  intros Hc. unfold pretty, pretty_N. destruct (decide (x = 0)%N).
  - cbn [contains]. rewrite orb_false_r. apply bool_decide_eq_false_2.
    intros <-. discriminate.
  - by apply contains_pretty_N_go.
Qed.

Lemma contains_pretty_nat c (n : nat) :
  isDigit c = false → contains c (pretty n) = false.
Proof. apply contains_pretty_N. Qed.

Lemma contains_pretty_Z c (z : Z) :
  isDigit c = false → c ≠ "-"%char → contains c (pretty z) = false.
Proof.
  intros Hc Hm. destruct z as [|p|p]; unfold pretty, pretty_Z.
  - cbn [contains]. rewrite orb_false_r. apply bool_decide_eq_false_2.
    intros <-. discriminate.
  - by apply contains_pretty_N.
  - rewrite contains_app. cbn [contains].
    rewrite bool_decide_eq_false_2 by done.
    by apply (contains_pretty_N c (N.pos p)).
Qed.

Lemma isDigit_digitChar d : 0 ≤ d < 10 → isDigit (digitChar d) = true.
Proof.
  intros Hd.
  assert (d = 0 ∨ d = 1 ∨ d = 2 ∨ d = 3 ∨ d = 4 ∨ d = 5 ∨ d = 6 ∨ d = 7
          ∨ d = 8 ∨ d = 9) as Hcases by lia.
  repeat (destruct Hcases as [->|Hcases]; [reflexivity|]). by subst.
Qed.

(** The two digits printed after the point. *)
Lemma toFixed2_digits n :
  isDigit (digitChar (n mod 100 / 10)) = true ∧
  isDigit (digitChar (n mod 10)) = true.
Proof.
  split; apply isDigit_digitChar.
  - pose proof (Z.mod_pos_bound n 100 ltac:(lia)).
    split; [apply Z.div_pos; lia|apply Z.div_lt_upper_bound; lia].
  - apply Z.mod_pos_bound. lia.
Qed.

Lemma contains_toFixed2 c x :
  isDigit c = false → c ≠ "-"%char → c ≠ "."%char →
  contains c (toFixed2 x) = false.
Proof.
  intros Hc Hm Hp. unfold toFixed2.
  destruct (toFixed2_digits (Qfloor (Qabs x * 100 + (1 # 2)))) as [H1 H2].
  rewrite !contains_app. cbn [contains].
  rewrite contains_pretty_Z by done.
  rewrite !orb_false_r, !orb_false_l.
  rewrite (bool_decide_eq_false_2 ("."%char = c)) by done.
  rewrite !bool_decide_eq_false_2; [|intros Heq; congruence..].
  cbn [orb]. rewrite orb_false_r.
  destruct (Qle_bool 0 x); cbn [contains]; [done|].
  rewrite orb_false_r. by apply bool_decide_eq_false_2.
Qed.

Lemma split_nonempty c s : split c s ≠ [].
Proof.
  destruct s as [|a s]; [done|]. cbn [split].
  destruct (bool_decide (a = c)); [done|]. by destruct (split c s).
Qed.

Lemma split_app_sep c s1 s2 :
  split c (s1 +:+ String c s2) = split c s1 ++ split c s2.
Proof.
  induction s1 as [|a s1 IH]; simpl.
  - by rewrite bool_decide_eq_true_2.
  - destruct (bool_decide (a = c)); [by rewrite IH|].
    rewrite IH. pose proof (split_nonempty c s1).
    by destruct (split c s1).
Qed.

Lemma append_assoc (s1 s2 s3 : string) :
  (s1 +:+ s2) +:+ s3 = s1 +:+ (s2 +:+ s3).
Proof.
  induction s1 as [|a s1 IH]; [done|].
  change (String a ((s1 +:+ s2) +:+ s3) = String a (s1 +:+ (s2 +:+ s3))).
  by rewrite IH.
Qed.

Lemma join_snoc sep parts s :
  parts ≠ [] → join sep (parts ++ [s]) = join sep parts +:+ sep +:+ s.
Proof.
  unfold join. induction parts as [|p parts IH]; [done|]. intros _.
  destruct parts as [|p' parts]; [done|].
  change (String.concat sep ((p :: p' :: parts) ++ [s]))
    with (p +:+ sep +:+ String.concat sep ((p' :: parts) ++ [s])).
  rewrite IH by done.
  change (String.concat sep (p :: p' :: parts))
    with (p +:+ sep +:+ String.concat sep (p' :: parts)).
  by rewrite !append_assoc.
Qed.

(** The teams shown are stored teams. *)
Lemma getFilteredTeams_team st t :
  t ∈ getFilteredTeams st → team t ∈ teams st.
Proof.
  unfold getFilteredTeams. rewrite (sort_perm (compareTeams (sortBy st))).
  intros Hin.
  assert (Hsub : ∀ p (l : list TeamWithStats) x, x ∈ List.filter p l → x ∈ l).
  { intros p l x Hx. apply list_elem_of_In, filter_In in Hx as [Hx _].
    by apply list_elem_of_In. }
  assert (Hin' : t ∈ getTeamsWithStats (teams st) (selectedDate st)
                       (Some (selectedDate st))).
  { unfold filterByLeader, filterByName in Hin.
    destruct (negb (bool_decide (filterLeader st = "all")));
      destruct (truthy (Some (searchTerm st))); eauto. }
  apply list_elem_of_fmap in Hin' as (t0 & -> & Hin0).
  unfold teamWithStats. destruct (booksDataOf t0) as [o|h]; [|done].
  by destruct (negb (truthy (date o))).
Qed.

Lemma team_teamWithStats sel d t : team (teamWithStats sel d t) = t.
Proof.
  unfold teamWithStats. destruct (booksDataOf t) as [o|h]; [|done].
  by destruct (negb (truthy (date o))).
Qed.

Lemma filter_map_length {A B} (f : A → B) (p : B → bool) (l : list A) :
  length (List.filter p (map f l)) = length (List.filter (λ x, p (f x)) l).
Proof.
  induction l as [|x l IH]; [done|]. cbn [map List.filter].
  destruct (p (f x)); cbn [length]; by rewrite IH.
Qed.

Lemma filter_filter_length {A} (p q : A → bool) (l : list A) :
  length (List.filter q (List.filter p l))
  = length (List.filter (λ x, p x && q x) l).
Proof.
  induction l as [|x l IH]; [done|]. cbn [List.filter].
  destruct (p x); cbn [List.filter andb]; [|done].
  destruct (q x); cbn [length]; by rewrite IH.
Qed.

(** The number of teams shown is the number of stored teams that pass both
    filters. *)
Lemma getFilteredTeams_length st :
  length (getFilteredTeams st)
  = length (List.filter (passesFilters st) (teams st)).
Proof.
  unfold getFilteredTeams.
  rewrite (sort_length (compareTeams (sortBy st))).
  set (l := getTeamsWithStats _ _ _).
  assert (Hl : length (List.filter
                  (λ t, (negb (truthy (Some (searchTerm st)))
                         || nameMatches (searchTerm st) t)
                        && (bool_decide (filterLeader st = "all")
                            || leaderMatches (filterLeader st) t)) l)
               = length (List.filter (passesFilters st) (teams st))).
  { unfold l, getTeamsWithStats. rewrite filter_map_length.
    f_equal. apply filter_ext. intros t.
    unfold nameMatches, leaderMatches, passesFilters.
    by rewrite team_teamWithStats. }
  rewrite <- Hl. unfold filterByLeader, filterByName.
  assert (Htrue : ∀ l' : list TeamWithStats, List.filter (λ _, true) l' = l').
  { intros l'. induction l' as [|x l' IH]; [done|]. cbn. by rewrite IH. }
  destruct (bool_decide (filterLeader st = "all"));
    destruct (truthy (Some (searchTerm st))); cbn [negb orb].
  - f_equal. apply filter_ext. intros t. by rewrite andb_true_r.
  - rewrite <- (Htrue l) at 1. f_equal.
  - by rewrite filter_filter_length.
  - f_equal.
Qed.

Lemma csvRow_singleLine i t :
  singleLine (team t) = true →
  contains "010" (join comma (csvRow i t)) = false.
Proof.
  intros Hs. apply andb_true_iff in Hs as [Hn Hl].
  apply negb_true_iff in Hn, Hl.
  apply contains_join; [done|]. unfold csvRow.
  repeat (apply Forall_cons; split); try apply Forall_nil; try done;
    first [ by apply contains_pretty_nat
          | by apply contains_pretty_Z
          | by apply contains_toFixed2 ].
Qed.

Lemma imap_lookup_csvRow (l : list TeamWithStats) i :
  imap csvRow l !! i = csvRow i <$> l !! i.
Proof. apply list_lookup_imap. Qed.

(** The first and the last field of a data row. *)
Lemma csvRow_fields i t :
  head (split "," (join comma (csvRow i t))) = Some (pretty (i + 1)%nat) ∧
  last (split "," (join comma (csvRow i t)))
  = Some (toFixed2 (totalPoints (stats t))).
Proof.
  split.
  - assert (Hrow : join comma (csvRow i t)
                   = pretty (i + 1)%nat
                     +:+ String "," (join comma (tail (csvRow i t))))
      by reflexivity.
    rewrite Hrow, split_app; [done|]. by apply contains_pretty_nat.
  - assert (Hrow : csvRow i t
                   = take 10 (csvRow i t)
                     ++ [toFixed2 (totalPoints (stats t))])
      by reflexivity.
    rewrite Hrow, join_snoc by done.
    change (comma +:+ ?s) with (String "," s).
    rewrite split_app_sep, last_app.
    rewrite (split_absent "," (toFixed2 _)); [done|].
    by apply contains_toFixed2.
Qed.

(** [toFixed2] always ends in a point and exactly two digits. *)
Lemma toFixed2_two_decimals x :
  ∃ whole d1 d2,
    toFixed2 x = whole +:+ "." +:+ String d1 (String d2 EmptyString) ∧
    contains "." whole = false ∧ isDigit d1 = true ∧ isDigit d2 = true.
Proof.
  unfold toFixed2. set (n := Qfloor _).
  destruct (toFixed2_digits n) as [H1 H2].
  exists ((if Qle_bool 0 x then EmptyString else "-"%string) +:+ pretty (n / 100)),
    (digitChar (n mod 100 / 10)), (digitChar (n mod 10)).
  split; [by rewrite append_assoc|]. split; [|done].
  rewrite contains_app, contains_pretty_Z by done.
  by destruct (Qle_bool 0 x).
Qed.

(** C4, as amended. When no team name or leader name contains a line break,
    the exported text has one line per team that passes the filters plus
    the header line; line 1 is the fixed header; the first field of the
    data line at position [i] (counted from 1 in the filtered and sorted
    sequence) is [i]; and its last field is the team's point total with a
    point and exactly two digits after it. *)
Theorem exportToCSV_lines (st : AppState) :
  Forall (λ t, singleLine t = true) (teams st) →
  length (split "010" (exportToCSV st))
  = (length (List.filter (passesFilters st) (teams st)) + 1)%nat ∧
  split "010" (exportToCSV st) !! 0%nat
  = Some "Rank,Team Name,BV Leader,Bhagavatam,CC,MBB,BB,MB,SB,Total Books,Total Points"%string ∧
  ∀ i t, getFilteredTeams st !! i = Some t →
    ∃ line whole d1 d2,
      split "010" (exportToCSV st) !! S i = Some line ∧
      head (split "," line) = Some (pretty (i + 1)%nat) ∧
      last (split "," line) = Some (toFixed2 (totalPoints (stats t))) ∧
      toFixed2 (totalPoints (stats t))
      = whole +:+ "." +:+ String d1 (String d2 EmptyString) ∧
      contains "." whole = false ∧ isDigit d1 = true ∧ isDigit d2 = true.
Proof.
  intros Hteams.
  assert (Hlines : split "010" (exportToCSV st)
                   = map (join comma)
                       (headers :: imap csvRow (getFilteredTeams st))).
  { unfold exportToCSV. apply split_join; [done|].
    cbn [map]. apply Forall_cons. split; [done|].
    apply Forall_lookup. intros i line Hline.
    rewrite list_lookup_fmap, imap_lookup_csvRow in Hline.
    destruct (getFilteredTeams st !! i) as [t|] eqn:Ht; [|done].
    injection Hline as <-. apply csvRow_singleLine.
    rewrite Forall_forall in Hteams. apply Hteams.
    by eapply getFilteredTeams_team, list_elem_of_lookup_2. }
  rewrite Hlines. split; [|split].
  - rewrite length_fmap. cbn [length].
    rewrite length_imap, getFilteredTeams_length. lia.
  - done.
  - intros i t Ht.
    destruct (toFixed2_two_decimals (totalPoints (stats t)))
      as (whole & d1 & d2 & Hfix & Hwhole & Hd1 & Hd2).
    destruct (csvRow_fields i t) as [Hhead Hlast].
    exists (join comma (csvRow i t)), whole, d1, d2.
    split; [|done].
    cbn [map lookup list_lookup].
    change ((map (join comma) (imap csvRow (getFilteredTeams st))) !! i
            = Some (join comma (csvRow i t))).
    by rewrite list_lookup_fmap, imap_lookup_csvRow, Ht.
Qed.

Lemma exportToCSV_lines_witness :
  Forall (λ t, singleLine t = true) (teams sampleState) ∧
  length (split "010" (exportToCSV sampleState)) = 3%nat.
Proof.
  assert (H : Forall (λ t, singleLine t = true) (teams sampleState)).
  { by repeat constructor. }
  split; [exact H|].
  exact (proj1 (exportToCSV_lines sampleState H)).
Defined.

(** C4, as stated, fails when a name holds a line break: one team is
    exported, and the text has three lines instead of two. *)
Lemma exportToCSV_line_break_counterexample :
  length (List.filter (passesFilters twoLineState) (teams twoLineState))
  = 1%nat ∧
  length (split "010" (exportToCSV twoLineState)) = 3%nat ∧
  length (split "010" (exportToCSV twoLineState))
  ≠ (length (List.filter (passesFilters twoLineState) (teams twoLineState))
     + 1)%nat.
Proof. by vm_compute. Qed.

(** ** The first revision *)

Lemma legacy_addBookType_NaN books ks acc :
  Legacy.totalPoints acc = None →
  Legacy.totalPoints (fold_left (Legacy.addBookType books) ks acc) = None.
Proof.
  revert acc. induction ks as [|k ks IH]; intros acc Hacc; [done|].
  cbn [fold_left]. apply IH. unfold Legacy.addBookType.
  cbn [Legacy.totalPoints]. by rewrite Hacc.
Qed.

Lemma legacy_fold_unknown books ks acc k :
  k ∈ ks → prop BOOK_VALUES k = None →
  Legacy.totalPoints (fold_left (Legacy.addBookType books) ks acc) = None.
Proof.
  intros Hin Hk. revert acc.
  induction ks as [|k' ks IH]; intros acc; [by apply elem_of_nil in Hin|].
  cbn [fold_left]. apply elem_of_cons in Hin as [<-|Hin]; [|by apply IH].
  apply legacy_addBookType_NaN. unfold Legacy.addBookType.
  cbn [Legacy.totalPoints]. rewrite Hk.
  by destruct (Legacy.totalPoints acc).
Qed.

(** In the first revision a property outside the table turns the point
    total into [NaN]. *)
Lemma legacy_calculateStats_unknown (books : Legacy.Books) (k : string) :
  k ∈ keys books → prop BOOK_VALUES k = None →
  Legacy.totalPoints (Legacy.calculateStats books) = None.
Proof. apply legacy_fold_unknown. Qed.

(** On properties of the table the first revision computes the weighted
    sum as well. *)
Lemma legacy_fold_known books ks points :
  Forall (λ k, is_Some (prop BOOK_VALUES k)) ks →
  ∃ points',
    Legacy.totalPoints
      (fold_left (Legacy.addBookType books) ks (Legacy.mkStats 0 (Some points)))
    = Some points' ∧
    (points' == points
       + sumQ (map (λ k, inject_Z (default 0%Z (prop books k))
                         * default 0 (prop BOOK_VALUES k)) ks))%Q.
Proof.
  intros Hks. revert points.
  assert (Hgen : ∀ n points, ∃ points',
            Legacy.totalPoints
              (fold_left (Legacy.addBookType books) ks
                 (Legacy.mkStats n (Some points)))
            = Some points' ∧
            (points' == points
               + sumQ (map (λ k, inject_Z (default 0%Z (prop books k))
                                 * default 0 (prop BOOK_VALUES k)) ks))%Q);
    [|by apply Hgen].
  induction Hks as [|k ks [w Hw] _ IH]; intros n points.
  - exists points. split; [done|]. cbn [map sumQ]. ring.
  - cbn [fold_left map sumQ]. unfold Legacy.addBookType at 2.
    cbn [Legacy.totalPoints Legacy.totalBooks]. rewrite Hw. cbn [default].
    destruct (IH (n + default 0%Z (prop books k))
                 (points + inject_Z (default 0%Z (prop books k)) * w)%Q)
      as (points' & Heq & Hsum).
    exists points'. split; [exact Heq|]. rewrite Hsum.
    unfold Datatypes.id. ring.
Qed.

Lemma legacy_calculateStats_known (books : Legacy.Books) :
  Forall (λ k, is_Some (prop BOOK_VALUES k)) (keys books) →
  ∃ points,
    Legacy.totalPoints (Legacy.calculateStats books) = Some points ∧
    (points == sumQ (map (λ k, inject_Z (default 0%Z (prop books k))
                               * default 0 (prop BOOK_VALUES k))
                       (keys books)))%Q.
Proof.
  intros Hks. destruct (legacy_fold_known books (keys books) 0%Q Hks)
    as (points & Heq & Hsum).
  exists points. split; [exact Heq|]. rewrite Hsum. ring.
Qed.

Lemma legacy_calculateStats_scenarioA :
  ∃ points,
    Legacy.totalPoints
      (Legacy.calculateStats [("Bhagavatam"%string, 1); ("MBB"%string, 3)])
    = Some points ∧ (points == 78)%Q.
Proof. eexists. split; [reflexivity|]. by vm_compute. Qed.

(** The first revision exports every stored team, ranked in stored order. *)
Lemma legacy_exportRanks (teams : list Legacy.Team) :
  length (Legacy.exportRanks teams) = length teams ∧
  ∀ i t, teams !! i = Some t →
    Legacy.exportRanks teams !! i
    = Some ((i + 1)%nat,
            Legacy.mkTeamWithStats t (Legacy.calculateStats (Legacy.books t))).
Proof.
  unfold Legacy.exportRanks, Legacy.getTeamsWithStats. split.
  - by rewrite length_imap, length_fmap.
  - intros i t Ht. by rewrite list_lookup_imap, list_lookup_fmap, Ht.
Qed.

(** * Further properties *)

(** ** Totals and counts *)

Lemma countOf_nonNegative o k : nonNegative o → 0 ≤ countOf o k.
Proof.
  intros Ho. unfold countOf. destruct (counts o !! k) as [n|] eqn:Hk; [|done].
  exact (Ho k n Hk).
Qed.

Lemma addObject_zero_books o :
  totalBooks (addObject zeroStats o)
  = 18 * countOf o "Bhagavatam" + 9 * countOf o "CC" + countOf o "MBB"
    + countOf o "BB" + countOf o "MB" + countOf o "SB".
Proof. unroll_categories. lia. Qed.

Lemma addObject_zero_points o :
  (totalPoints (addObject zeroStats o) == quarters o # 4)%Q.
Proof.
  unroll_categories. unfold quarters.
  generalize (countOf o "Bhagavatam") (countOf o "CC") (countOf o "MBB")
    (countOf o "BB") (countOf o "MB") (countOf o "SB").
  intros c1 c2 c3 c4 c5 c6. unfold Qeq. simpl. lia.
Qed.

Lemma quarters_plus (a b : Z) : ((a # 4) + (b # 4) == (a + b) # 4)%Q.
Proof. unfold Qeq. simpl. lia. Qed.

Lemma fold_addObject_quarters es acc za :
  (totalPoints acc == za # 4)%Q →
  (totalPoints (fold_left addObject es acc)
   == (za + sumZ (map quarters es)) # 4)%Q.
Proof.
  revert acc za. induction es as [|e es IH]; intros acc za Hacc;
    cbn [fold_left map sumZ].
  - by rewrite Z.add_0_r.
  - rewrite (IH _ (za + quarters e)).
    + by rewrite Z.add_assoc.
    + by rewrite addObject_points, Hacc, addObject_zero_points, quarters_plus.
Qed.

Lemma quarters_nonNegative o : nonNegative o → 0 ≤ quarters o.
Proof.
  intros Ho. unfold quarters.
  pose proof (countOf_nonNegative o "Bhagavatam" Ho).
  pose proof (countOf_nonNegative o "CC" Ho).
  pose proof (countOf_nonNegative o "MBB" Ho).
  pose proof (countOf_nonNegative o "BB" Ho).
  pose proof (countOf_nonNegative o "MB" Ho).
  pose proof (countOf_nonNegative o "SB" Ho). lia.
Qed.

Lemma sumZ_nonNegative (l : list Z) : Forall (λ z, 0 ≤ z) l → 0 ≤ sumZ l.
Proof. induction 1; cbn [sumZ]; lia. Qed.

Lemma Forall_filter_keep {A} (P : A → Prop) (Q : A → Prop)
    `{!∀ x, Decision (Q x)} (l : list A) :
  Forall P l → Forall P (filter Q l).
Proof.
  induction 1 as [|x l Hx _ IH]; [done|].
  rewrite filter_cons. destruct (decide (Q x)); [by constructor|done].
Qed.

(** The entries a date filter keeps, as [calculateStats] selects them. *)
Lemma calculateStats_history entries d :
  calculateStats (Arr entries) d
  = fold_left addObject
      (if truthy d then filter (λ entry, date entry = d) entries else entries)
      zeroStats.
Proof. reflexivity. Qed.

(** Every point total is a whole number of quarter points, which is not
    negative when no count is. *)
Lemma calculateStats_quarters booksData d :
  ∃ z, (totalPoints (calculateStats booksData d) == z # 4)%Q ∧
       (dataNonNegative booksData → 0 ≤ z).
Proof.
  destruct booksData as [o|entries].
  - exists (quarters o). split; [apply addObject_zero_points|].
    apply quarters_nonNegative.
  - rewrite calculateStats_history.
    set (kept := if truthy d then _ else _).
    exists (0 + sumZ (map quarters kept)). split.
    + by apply fold_addObject_quarters.
    + cbn [dataNonNegative]. intros Hall.
      assert (Hkept : Forall nonNegative kept).
      { unfold kept. destruct (truthy d); [|done]. by apply Forall_filter_keep. }
      apply Z.add_nonneg_nonneg; [done|]. apply sumZ_nonNegative.
      apply Forall_fmap. eapply Forall_impl; [exact Hkept|].
      intros o. apply quarters_nonNegative.
Qed.

(** X1. When no count is negative, neither total is: for a flat object and
    for a history, with or without a date filter. *)
Theorem calculateStats_nonNegative (booksData : BookData) (d : option string) :
  dataNonNegative booksData →
  0 ≤ totalBooks (calculateStats booksData d) ∧
  (0 <= totalPoints (calculateStats booksData d))%Q.
Proof.
  intros Hdata. split.
  - destruct booksData as [o|entries].
    + unfold calculateStats. rewrite addObject_zero_books.
      pose proof (countOf_nonNegative o "Bhagavatam" Hdata).
      pose proof (countOf_nonNegative o "CC" Hdata).
      pose proof (countOf_nonNegative o "MBB" Hdata).
      pose proof (countOf_nonNegative o "BB" Hdata).
      pose proof (countOf_nonNegative o "MB" Hdata).
      pose proof (countOf_nonNegative o "SB" Hdata). lia.
    + rewrite calculateStats_history.
      set (kept := if truthy d then _ else _).
      assert (Hkept : Forall nonNegative kept).
      { unfold kept. destruct (truthy d); [|done]. by apply Forall_filter_keep. }
      rewrite fold_addObject_books. cbn [zeroStats totalBooks].
      apply Z.add_nonneg_nonneg; [done|]. apply sumZ_nonNegative.
      apply Forall_fmap. eapply Forall_impl; [exact Hkept|].
      intros o Ho. change (0 ≤ totalBooks (addObject zeroStats o)).
      rewrite addObject_zero_books.
      pose proof (countOf_nonNegative o "Bhagavatam" Ho).
      pose proof (countOf_nonNegative o "CC" Ho).
      pose proof (countOf_nonNegative o "MBB" Ho).
      pose proof (countOf_nonNegative o "BB" Ho).
      pose proof (countOf_nonNegative o "MB" Ho).
      pose proof (countOf_nonNegative o "SB" Ho). lia.
  - destruct (calculateStats_quarters booksData d) as (z & Hz & Hpos).
    rewrite Hz. specialize (Hpos Hdata).
    unfold Qle. cbn. lia.
Qed.

Lemma calculateStats_nonNegative_witness :
  dataNonNegative (Arr oneEntryHistory) ∧
  0 ≤ totalBooks (calculateStats (Arr oneEntryHistory) None).
Proof.
  assert (H : dataNonNegative (Arr oneEntryHistory)).
  { cbn. apply Forall_singleton. unfold nonNegative. cbn.
    apply map_Forall_singleton. lia. }
  split; [exact H|].
  exact (proj1 (calculateStats_nonNegative (Arr oneEntryHistory) None H)).
Defined.

(** ** The dated update seen through the stats calculation *)

Lemma entriesOn_tail d e h : (entriesOn d h ≤ entriesOn d (e :: h))%nat.
Proof. rewrite entriesOn_cons. lia. Qed.

Lemma filter_date_none d h :
  entriesOn d h = 0%nat → filter (λ entry, date entry = Some d) h = [].
Proof. unfold entriesOn. by intros ?%nil_length_inv. Qed.

(** After the update the entries of the date are the submitted one alone. *)
Lemma filter_upsertEntry_same d b h :
  (entriesOn d h ≤ 1)%nat →
  filter (λ entry, date entry = Some d) (upsertEntry d b h)
  = [mkBookObj (Some d) b].
Proof.
  induction h as [|e h IH]; intros Hone.
  - rewrite upsertEntry_nil, filter_cons. cbn [date].
    by rewrite decide_True.
  - rewrite upsertEntry_cons. rewrite entriesOn_cons in Hone.
    destruct (decide (date e = Some d)) as [He|He].
    + rewrite filter_cons. cbn [date]. rewrite decide_True by done.
      f_equal. apply filter_date_none. lia.
    + rewrite filter_cons, decide_False by done. apply IH. lia.
Qed.

(** The entries of any other date are untouched. *)
Lemma filter_upsertEntry_other d d' b h :
  d' ≠ d →
  filter (λ entry, date entry = Some d') (upsertEntry d b h)
  = filter (λ entry, date entry = Some d') h.
Proof.
  intros Hne. induction h as [|e h IH].
  - rewrite upsertEntry_nil, filter_cons. cbn [date].
    rewrite decide_False; [done|]. by intros [= ->].
  - rewrite upsertEntry_cons. destruct (decide (date e = Some d)) as [He|He].
    + rewrite !filter_cons. cbn [date]. rewrite He.
      by rewrite !decide_False by (by intros [= ->]).
    + by rewrite !filter_cons, IH.
Qed.

Lemma truthy_nonempty d : d ≠ EmptyString → truthy (Some d) = true.
Proof. by destruct d. Qed.

(** X2. Write then read: after the scores of a date are updated in a
    history with at most one entry per date, the stats as of that date are
    exactly the stats of the submitted counts. *)
Theorem calculateStats_upsertEntry_same (d : string) (b : BookCounts)
    (h : list BookObj) :
  d ≠ EmptyString →
  onePerDate h →
  calculateStats (Arr (upsertEntry d b h)) (Some d)
  = calculateStats (Obj (mkBookObj (Some d) b)) None.
Proof.
  intros Hd Hh. rewrite calculateStats_history, truthy_nonempty by done.
  by rewrite filter_upsertEntry_same.
Qed.

Lemma calculateStats_upsertEntry_same_witness :
  "2024-01-01"%string ≠ EmptyString ∧ onePerDate oneEntryHistory ∧
  calculateStats
    (Arr (upsertEntry "2024-01-01" {[ "CC"%string := 2 ]} oneEntryHistory))
    (Some "2024-01-01"%string)
  = calculateStats
      (Obj (mkBookObj (Some "2024-01-01"%string) {[ "CC"%string := 2 ]})) None.
Proof.
  assert (Hd : "2024-01-01"%string ≠ EmptyString) by discriminate.
  assert (Hh : onePerDate oneEntryHistory) by apply onePerDate_singleton.
  split; [exact Hd|]. split; [exact Hh|].
  exact (calculateStats_upsertEntry_same "2024-01-01"
           {[ "CC"%string := 2 ]} oneEntryHistory Hd Hh).
Defined.

(** X3. The update of one date does not change the stats as of any other
    date. *)
Theorem calculateStats_upsertEntry_other (d d' : string) (b : BookCounts)
    (h : list BookObj) :
  d' ≠ EmptyString → d' ≠ d →
  calculateStats (Arr (upsertEntry d b h)) (Some d')
  = calculateStats (Arr h) (Some d').
Proof.
  intros Hd' Hne. rewrite !calculateStats_history, truthy_nonempty by done.
  by rewrite filter_upsertEntry_other.
Qed.

Lemma calculateStats_upsertEntry_other_witness :
  calculateStats
    (Arr (upsertEntry "2024-01-02" {[ "CC"%string := 2 ]} oneEntryHistory))
    (Some "2024-01-01"%string)
  = calculateStats (Arr oneEntryHistory) (Some "2024-01-01"%string).
Proof.
  apply (calculateStats_upsertEntry_other "2024-01-02" "2024-01-01");
    discriminate.
Defined.

(** X4. An update for a date that has no entry yet adds the totals of the
    submitted counts to the cumulative totals. *)
Theorem calculateStats_upsertEntry_fresh (d : string) (b : BookCounts)
    (h : list BookObj) :
  Forall (λ e, date e ≠ Some d) h →
  totalBooks (calculateStats (Arr (upsertEntry d b h)) None)
  = totalBooks (calculateStats (Arr h) None)
    + totalBooks (calculateStats (Obj (mkBookObj (Some d) b)) None) ∧
  (totalPoints (calculateStats (Arr (upsertEntry d b h)) None)
   == totalPoints (calculateStats (Arr h) None)
      + totalPoints (calculateStats (Obj (mkBookObj (Some d) b)) None))%Q.
Proof.
  intros Hfresh. rewrite upsertEntry_fresh by done.
  rewrite !calculateStats_history. cbn [truthy].
  rewrite fold_left_app. cbn [fold_left]. split.
  - apply addObject_books.
  - apply addObject_points.
Qed.

Lemma calculateStats_upsertEntry_fresh_witness :
  totalBooks
    (calculateStats
       (Arr (upsertEntry "2024-01-02" {[ "CC"%string := 2 ]} oneEntryHistory))
       None)
  = 19.
Proof.
  assert (H : Forall (λ e, date e ≠ Some "2024-01-02"%string) oneEntryHistory).
  { apply Forall_singleton. cbn. discriminate. }
  rewrite (proj1 (calculateStats_upsertEntry_fresh "2024-01-02"
                    {[ "CC"%string := 2 ]} oneEntryHistory H)).
  reflexivity.
Defined.

(** ** The per-category adjustment seen through the views *)

Lemma countOf_setCount_eq o k n : countOf (setCount o k n) k = n.
Proof. unfold countOf, setCount. cbn [counts]. by rewrite lookup_insert_eq. Qed.

Lemma countOf_setCount_ne o k k' n :
  k ≠ k' → countOf (setCount o k n) k' = countOf o k'.
Proof.
  intros Hne. unfold countOf, setCount. cbn [counts].
  by rewrite lookup_insert_ne.
Qed.

Lemma elem_of_categories k :
  k ∈ categories →
  k = "Bhagavatam"%string ∨ k = "CC"%string ∨ k = "MBB"%string
  ∨ k = "BB"%string ∨ k = "MB"%string ∨ k = "SB"%string.
Proof.
  unfold categories. intros Hin.
  repeat (apply elem_of_cons in Hin as [->|Hin]; [tauto|]).
  by apply elem_of_nil in Hin.
Qed.

(** Rewrite the six counts of an object whose count of [k] was set. *)
Ltac counts_after_set :=
  rewrite ?countOf_setCount_eq;
  rewrite ?countOf_setCount_ne by discriminate.

(** Setting one category count moves each total by the difference times
    the weight of that category. *)
Lemma addObject_setCount o k n :
  k ∈ categories →
  totalBooks (addObject zeroStats (setCount o k n))
  = totalBooks (addObject zeroStats o)
    + (n - countOf o k) * default 0 (prop BOOK_EQUIV k) ∧
  (totalPoints (addObject zeroStats (setCount o k n))
   == totalPoints (addObject zeroStats o)
      + inject_Z (n - countOf o k) * default 0 (prop BOOK_VALUES k))%Q.
Proof.
  intros Hk. rewrite !addObject_zero_books, !addObject_zero_points.
  unfold quarters.
  apply elem_of_categories in Hk as [-> | [-> | [-> | [-> | [-> | ->]]]]];
    counts_after_set; autorewrite with tables;
    generalize (countOf o "Bhagavatam") (countOf o "CC") (countOf o "MBB")
      (countOf o "BB") (countOf o "MB") (countOf o "SB");
    intros c1 c2 c3 c4 c5 c6; (split; [lia|unfold Qeq; simpl; lia]).
Qed.

(** X5. For a team that has a [booksHistory], the per-category adjustment
    changes nothing of what the views show: the stats, the counts and the
    history of every team are as before. *)
Theorem handleUpdateBookCount_history_view (ts : list Team)
    (teamId bookType : string) (delta : Z) (sel : string)
    (d : option string) :
  (∀ t, t ∈ ts → id t = teamId → is_Some (booksHistory t)) →
  map viewOf
    (getTeamsWithStats (handleUpdateBookCount ts teamId bookType delta).1
       sel d)
  = map viewOf (getTeamsWithStats ts sel d).
Proof.
  intros Hhist. unfold handleUpdateBookCount.
  destruct (find _ ts) as [t0|]; [|done]. cbn [fst].
  unfold getTeamsWithStats. rewrite !map_map.
  apply map_ext_in. intros t Hin%list_elem_of_In.
  destruct (bool_decide (id t = teamId)) eqn:Hid; [|done].
  apply bool_decide_eq_true in Hid.
  destruct (Hhist t Hin Hid) as [bd Hbd].
  unfold viewOf, teamWithStats, booksDataOf, setBooks. cbn [booksHistory].
  rewrite Hbd. destruct bd as [o|h]; [|done].
  by destruct (negb (truthy (date o))).
Qed.

Lemma handleUpdateBookCount_history_view_witness :
  map viewOf
    (getTeamsWithStats (handleUpdateBookCount [teamBeta] "t2" "MBB" 5).1
       "2024-01-01" None)
  = map viewOf (getTeamsWithStats [teamBeta] "2024-01-01" None).
Proof.
  apply (handleUpdateBookCount_history_view [teamBeta] "t2" "MBB" 5).
  intros t Hin _. apply list_elem_of_singleton in Hin as ->. by eexists.
Defined.

(** X6. For a team without a [booksHistory], an adjustment that does not
    take the count below zero moves the team's totals by the delta times
    the weights of the category: its equivalence factor for the books, its
    point value for the points. *)
Theorem handleUpdateBookCount_flat_totals (t : Team) (bookType : string)
    (delta : Z) (sel : string) (d : option string) :
  booksHistory t = None →
  bookType ∈ categories →
  0 ≤ countOf (default emptyObj (books t)) bookType + delta →
  totalBooks
    (stats (teamWithStats sel d (setBooks t (updatedBooks t bookType delta))))
  = totalBooks (stats (teamWithStats sel d t))
    + delta * default 0 (prop BOOK_EQUIV bookType) ∧
  (totalPoints
     (stats (teamWithStats sel d (setBooks t (updatedBooks t bookType delta))))
   == totalPoints (stats (teamWithStats sel d t))
      + inject_Z delta * default 0 (prop BOOK_VALUES bookType))%Q.
Proof.
  intros Hhist Hk Hpos.
  assert (Hnew : stats (teamWithStats sel d
                          (setBooks t (updatedBooks t bookType delta)))
                 = addObject zeroStats (updatedBooks t bookType delta)).
  { unfold teamWithStats, booksDataOf, setBooks. cbn [booksHistory books].
    rewrite Hhist. by destruct (negb (truthy _)). }
  assert (Hold : stats (teamWithStats sel d t)
                 = addObject zeroStats (default emptyObj (books t))).
  { unfold teamWithStats, booksDataOf. rewrite Hhist.
    destruct (books t) as [b|]; cbn [default];
      by destruct (negb (truthy _)). }
  rewrite Hnew, Hold. unfold updatedBooks.
  destruct (addObject_setCount (default emptyObj (books t)) bookType
              (Z.max 0 (countOf (default emptyObj (books t)) bookType + delta))
              Hk) as [Hb Hp].
  rewrite Hb, Hp.
  replace (Z.max 0 (countOf (default emptyObj (books t)) bookType + delta)
           - countOf (default emptyObj (books t)) bookType) with delta by lia.
  done.
Qed.

Lemma handleUpdateBookCount_flat_totals_witness :
  totalBooks
    (stats (teamWithStats "2024-01-01" None
              (setBooks legacyTeam (updatedBooks legacyTeam "CC" 2))))
  = totalBooks (stats (teamWithStats "2024-01-01" None legacyTeam))
    + 2 * default 0 (prop BOOK_EQUIV "CC").
Proof.
  apply (handleUpdateBookCount_flat_totals legacyTeam "CC" 2 "2024-01-01" None).
  - reflexivity.
  - unfold categories. apply elem_of_cons. right. apply elem_of_cons. by left.
  - by vm_compute.
Defined.

(** X7. The first dated update of a team that has no [booksHistory] starts
    its history from the submitted counts alone: the stored team then shows
    the stats of these counts, whatever flat counts it held before.  The
    write is sent whether or not the store accepts it. *)
Theorem onUpdate_without_history (today : string) (resolves : nat → bool)
    (ts : list Team) (u : ScoreUpdate) (t : Team) :
  find (λ t', bool_decide (id t' = teamId u)) ts = Some t →
  booksHistory t = None →
  ∃ w, runWrites (onUpdate today resolves ts [u]) = [w] ∧
       writeId w = teamId u ∧
       writeHistory w = [mkBookObj (Some (updDate u)) (updBooks u)] ∧
       ∀ sel d,
         stats (teamWithStats sel d (applyWrite w t))
         = calculateStats
             (Arr [mkBookObj (Some (updDate u)) (updBooks u)]) d.
Proof.
  intros Hfind Hhist. unfold onUpdate. cbn [scoreUpdateLoop].
  unfold scoreUpdateStep. rewrite Hfind, Hhist. cbn [length].
  eexists. split; [by destruct (resolves 0%nat)|]. repeat split.
Qed.

Lemma onUpdate_without_history_witness :
  ∃ w, runWrites
         (onUpdate "2024-02-02" (λ _, true) [legacyTeam]
            [mkScoreUpdate "t1" "2024-02-01" {[ "CC"%string := 2 ]}]) = [w] ∧
       totalBooks
         (stats (teamWithStats "2024-02-01" None (applyWrite w legacyTeam)))
       = 18.
Proof.
  destruct (onUpdate_without_history "2024-02-02" (λ _, true) [legacyTeam]
              (mkScoreUpdate "t1" "2024-02-01" {[ "CC"%string := 2 ]})
              legacyTeam eq_refl eq_refl) as (w & Hw & _ & _ & Hstats).
  exists w. split; [exact Hw|]. by rewrite Hstats.
Defined.

(** ** The ranking *)

Lemma filter_map_comm {A B} (f : A → B) (p : B → bool) (l : list A) :
  List.filter p (map f l) = map f (List.filter (λ x, p (f x)) l).
Proof.
  induction l as [|x l IH]; [done|]. cbn [map List.filter].
  destruct (p (f x)); cbn [map]; by rewrite IH.
Qed.

Lemma filter_filter_and {A} (p q : A → bool) (l : list A) :
  List.filter q (List.filter p l) = List.filter (λ x, p x && q x) l.
Proof.
  induction l as [|x l IH]; [done|]. cbn [List.filter].
  destruct (p x); cbn [List.filter andb]; [|done].
  destruct (q x); by rewrite IH.
Qed.

Lemma filter_true {A} (l : list A) : List.filter (λ _, true) l = l.
Proof. induction l as [|x l IH]; [done|]. cbn. by rewrite IH. Qed.

(** Before they are sorted, the teams shown are the stored teams that pass
    the filters, in stored order. *)
Lemma filtered_teams (st : AppState) :
  map team
    (filterByLeader (filterLeader st)
       (filterByName (searchTerm st)
          (getTeamsWithStats (teams st) (selectedDate st)
             (Some (selectedDate st)))))
  = List.filter (passesFilters st) (teams st).
Proof.
  assert (Hall : ∀ p : TeamWithStats → bool,
            map team
              (List.filter p
                 (getTeamsWithStats (teams st) (selectedDate st)
                    (Some (selectedDate st))))
            = List.filter
                (λ t, p (teamWithStats (selectedDate st)
                           (Some (selectedDate st)) t))
                (teams st)).
  { intros p. unfold getTeamsWithStats. rewrite filter_map_comm, map_map.
    rewrite <- (map_id (List.filter _ (teams st))) at 2.
    apply map_ext. intros t. apply team_teamWithStats. }
  unfold filterByLeader, filterByName, passesFilters.
  destruct (bool_decide (filterLeader st = "all"));
    destruct (truthy (Some (searchTerm st))); cbn [negb orb].
  - rewrite Hall. apply filter_ext. intros t.
    unfold nameMatches. by rewrite team_teamWithStats, andb_true_r.
  - rewrite <- (filter_true (getTeamsWithStats _ _ _)), Hall.
    by apply filter_ext.
  - rewrite filter_filter_and, Hall. apply filter_ext. intros t.
    unfold nameMatches, leaderMatches. by rewrite team_teamWithStats.
  - rewrite Hall. apply filter_ext. intros t.
    unfold leaderMatches. by rewrite team_teamWithStats.
Qed.

(** X8. The ranking neither drops nor repeats a team: the teams it shows
    are, up to their order, exactly the stored teams that pass the two
    filters. *)
Theorem getFilteredTeams_permutation (st : AppState) :
  map team (getFilteredTeams st)
  ≡ₚ List.filter (passesFilters st) (teams st).
Proof.
  unfold getFilteredTeams.
  rewrite (sort_perm (compareTeams (sortBy st))). by rewrite filtered_teams.
Qed.

(** ** The charts and the dashboard totals *)

Section Prefix.
Context {A : Type} (key : A → Q).

Lemma StronglySorted_take (n : nat) (l : list A) :
  StronglySorted (λ x y, (key y <= key x)%Q) l →
  StronglySorted (λ x y, (key y <= key x)%Q) (take n l).
Proof.
  intros Hs. revert n. induction Hs as [|x l _ IH Hx]; intros [|n];
    cbn [take]; try constructor.
  - apply IH.
  - apply Forall_forall. intros y Hy. rewrite Forall_forall in Hx.
    apply Hx. by eapply subseteq_take.
Qed.
End Prefix.

Lemma length_append (s1 s2 : string) :
  String.length (s1 +:+ s2) = (String.length s1 + String.length s2)%nat.
Proof.
  induction s1 as [|a s1 IH]; [done|].
  change (S (String.length (s1 +:+ s2))
          = S (String.length s1 + String.length s2)).
  by rewrite IH.
Qed.

Lemma length_substring (m : nat) (s : string) :
  (m ≤ String.length s)%nat → String.length (String.substring 0 m s) = m.
Proof.
  revert s. induction m as [|m IH]; intros [|a s] Hm; cbn in *;
    try done; try lia.
  f_equal. apply IH. lia.
Qed.

(** X9. The bar chart shows the first ten teams of the ranking, in ranking
    order: sorting the slice again changes nothing.  It has ten bars, or as
    many as there are teams that pass the filters if these are fewer. *)
Theorem chartData_top_ten (st : AppState) :
  chartData st = map chartEntry (take 10 (getFilteredTeams st)) ∧
  length (chartData st)
  = Nat.min 10 (length (List.filter (passesFilters st) (teams st))).
Proof.
  assert (Hsame : sort (compareTeams (sortBy st)) (take 10 (getFilteredTeams st))
                  = take 10 (getFilteredTeams st)).
  { apply (sort_sorted_id _ _ (compareTeams_key (sortBy st))).
    apply StronglySorted_take.
    apply (sort_sorted _ _ (compareTeams_key (sortBy st))). }
  unfold chartData. rewrite Hsame. split; [done|].
  by rewrite length_fmap, length_take, getFilteredTeams_length.
Qed.

Lemma append_inj_length (s1 s2 t : string) :
  String.length s1 = String.length s2 → s1 +:+ t = s2 +:+ t → s1 = s2.
Proof.
  revert s2. induction s1 as [|a s1 IH]; intros [|b s2] Hlen Heq;
    try done.
  injection Hlen as Hlen.
  change (String a (s1 +:+ t) = String b (s2 +:+ t)) in Heq.
  injection Heq as -> Heq. f_equal. by apply IH.
Qed.

(** X10. Bar labels of names of ASCII characters.  A label has at most 18
    characters, and two names get the same label only when they are the
    same name, or when both are longer than 15 characters and agree on
    their first 15: teams with such names cannot be told apart in the
    chart, all other teams can. *)
Theorem chartName_same_label (n1 n2 : string) :
  isAscii n1 = true → isAscii n2 = true →
  (String.length (chartName n1) ≤ 18)%nat ∧
  (chartName n1 = chartName n2 ↔
     n1 = n2 ∨
     ((15 < String.length n1)%nat ∧ (15 < String.length n2)%nat ∧
      String.substring 0 15 n1 = String.substring 0 15 n2)).
Proof.
  intros Hascii1 Hascii2.
  assert (Hlong : ∀ n, (15 < String.length n)%nat →
            String.length (String.substring 0 15 n +:+ "...") = 18%nat).
  { intros n Hn. rewrite length_append, length_substring by lia. reflexivity. }
  unfold chartName.
  destruct (15 <? String.length n1)%nat eqn:H1;
    destruct (15 <? String.length n2)%nat eqn:H2;
    (apply Nat.ltb_lt in H1 || apply Nat.ltb_ge in H1);
    (apply Nat.ltb_lt in H2 || apply Nat.ltb_ge in H2).
  - split; [rewrite Hlong by done; lia|]. split.
    + intros Heq. right. repeat split; try done.
      apply (append_inj_length _ _ "..."); [|done].
      by rewrite !length_substring by lia.
    + intros [->|(_ & _ & ->)]; done.
  - split; [rewrite Hlong by done; lia|]. split.
    + intros Heq. apply (f_equal String.length) in Heq.
      rewrite Hlong in Heq by done. lia.
    + intros [->|(_ & ? & _)]; lia.
  - split; [lia|]. split.
    + intros Heq. apply (f_equal String.length) in Heq.
      rewrite Hlong in Heq by done. lia.
    + intros [->|(? & _ & _)]; lia.
  - split; [lia|]. split; [by left|].
    intros [->|(? & _ & _)]; [done|lia].
Qed.

Lemma chartName_same_label_witness :
  chartName "International Society Team"
  = chartName "International Students".
Proof.
  apply (proj2 (chartName_same_label "International Society Team"
                  "International Students" eq_refl eq_refl)).
  right. cbn. repeat split; lia.
Defined.

Lemma fold_left_add_Z {A} (f : A → Z) (l : list A) (a : Z) :
  fold_left (λ sum t, sum + f t) l a = a + sumZ (map f l).
Proof.
  revert a. induction l as [|x l IH]; intros a; cbn [fold_left map sumZ].
  - lia.
  - rewrite IH. lia.
Qed.

Lemma fold_left_add_Q {A} (f : A → Q) (l : list A) (a : Q) :
  (fold_left (λ sum t, (sum + f t)%Q) l a == a + sumQ (map f l))%Q.
Proof.
  revert a. induction l as [|x l IH]; intros a; cbn [fold_left map sumQ].
  - ring.
  - rewrite IH. ring.
Qed.

Lemma sumZ_Permutation (l1 l2 : list Z) : l1 ≡ₚ l2 → sumZ l1 = sumZ l2.
Proof. induction 1; cbn [sumZ]; lia. Qed.

Lemma sumQ_Permutation (l1 l2 : list Q) :
  l1 ≡ₚ l2 → (sumQ l1 == sumQ l2)%Q.
Proof.
  induction 1 as [|x l1 l2 _ IH|x y l|l1 l2 l3 _ IH1 _ IH2]; cbn [sumQ].
  - reflexivity.
  - by rewrite IH.
  - ring.
  - by rewrite IH1.
Qed.

(** X11. With no search term and the leader filter on "all", the totals on
    the dashboard are the sums of the totals of the ranked teams, whatever
    the sort key. *)
Theorem dashboard_totals_ranking (st : AppState) :
  searchTerm st = EmptyString →
  filterLeader st = "all"%string →
  dashboardBooks st
  = sumZ (map (λ t, totalBooks (stats t)) (getFilteredTeams st)) ∧
  (dashboardPoints st
   == sumQ (map (λ t, totalPoints (stats t)) (getFilteredTeams st)))%Q.
Proof.
  intros Hs Hl. unfold dashboardBooks, dashboardPoints, getFilteredTeams.
  rewrite Hs, Hl. cbn [filterByName filterByLeader truthy bool_decide negb].
  unfold filterByLeader.
  rewrite bool_decide_eq_true_2 by done. cbn [negb].
  set (l := getTeamsWithStats _ _ _).
  pose proof (sort_perm (compareTeams (sortBy st)) l) as Hperm. split.
  - rewrite fold_left_add_Z, Z.add_0_l.
    symmetry. apply sumZ_Permutation. by apply fmap_Permutation.
  - rewrite fold_left_add_Q, Qplus_0_l.
    symmetry. apply sumQ_Permutation. by apply fmap_Permutation.
Qed.

Lemma dashboard_totals_ranking_witness :
  dashboardBooks sampleState
  = sumZ (map (λ t, totalBooks (stats t)) (getFilteredTeams sampleState)).
Proof.
  exact (proj1 (dashboard_totals_ranking sampleState eq_refl eq_refl)).
Defined.

(** ** The book distribution *)

Lemma distributionValue_sum l k :
  distributionValue l k = sumZ (map (λ t, countOf (normBooks t) k) l).
Proof. unfold distributionValue. rewrite fold_left_add_Z. lia. Qed.

Lemma countOf_emptyObj k : countOf emptyObj k = 0.
Proof. reflexivity. Qed.

Lemma filter_map_sublist {A B} (f : A → B) (g : B → A) (p : B → bool)
    (l : list A) :
  (∀ x, g (f x) = x) → map g (List.filter p (map f l)) `sublist_of` l.
Proof.
  intros Hgf. induction l as [|x l IH]; [done|]. cbn [map List.filter].
  destruct (p (f x)); cbn [map].
  - rewrite Hgf. by apply sublist_skip.
  - by apply sublist_cons.
Qed.

(** X12. The slices of the pie chart: their names are categories of the
    table, each at most once and in table order, and every slice has a
    positive value, the count of its category summed over the teams'
    [books]. *)
Theorem bookDistribution_slices (st : AppState) :
  map itemName (bookDistribution st) `sublist_of` categories ∧
  Forall (λ item,
            0 < itemValue item ∧
            itemValue item
            = sumZ (map (λ t, countOf (normBooks t) (itemName item))
                      (getTeamsWithStats (teams st) (selectedDate st)
                         (Some (selectedDate st)))))
    (bookDistribution st).
Proof.
  unfold bookDistribution. rewrite keys_BOOK_VALUES. split.
  - by apply (filter_map_sublist _ itemName).
  - apply Forall_forall. intros item Hin.
    apply list_elem_of_In, filter_In in Hin as [Hin Hpos].
    apply Z.ltb_lt in Hpos. split; [done|].
    apply in_map_iff in Hin as (k & <- & _). cbn [itemValue itemName].
    apply distributionValue_sum.
Qed.

(** X13. Teams whose data is a dated history count for nothing in the pie
    chart: when every team has an array history, the chart has no slice. *)
Theorem bookDistribution_history (st : AppState) :
  Forall (λ t, ∃ h, booksHistory t = Some (Arr h)) (teams st) →
  bookDistribution st = [].
Proof.
  intros Hall. unfold bookDistribution.
  assert (Hzero : ∀ k, distributionValue
                         (getTeamsWithStats (teams st) (selectedDate st)
                            (Some (selectedDate st))) k = 0).
  { intros k. rewrite distributionValue_sum. unfold getTeamsWithStats.
    induction Hall as [|t ts [h Hh] _ IH]; [done|].
    cbn [map sumZ]. rewrite IH.
    unfold teamWithStats, booksDataOf. rewrite Hh. cbn [normBooks].
    by rewrite countOf_emptyObj. }
  induction (keys BOOK_VALUES) as [|k ks IH]; [done|].
  cbn [map List.filter itemValue]. by rewrite Hzero.
Qed.

Lemma bookDistribution_history_witness :
  bookDistribution
    (mkAppState [teamBeta] "" "all" "points" "2024-01-01") = [].
Proof.
  apply bookDistribution_history. cbn [teams].
  apply Forall_singleton. by eexists.
Defined.

(** X14. When no team has a [booksHistory], the book total of the dashboard
    is the sum of the summed category counts, each weighted by its
    equivalence factor. *)
Theorem dashboardBooks_flat (st : AppState) :
  Forall (λ t, booksHistory t = None) (teams st) →
  dashboardBooks st
  = sumZ (map (λ k,
                 default 0 (prop BOOK_EQUIV k)
                 * distributionValue
                     (getTeamsWithStats (teams st) (selectedDate st)
                        (Some (selectedDate st))) k)
            categories).
Proof.
  intros Hall. unfold dashboardBooks. rewrite fold_left_add_Z.
  unfold categories. cbn [map sumZ]. autorewrite with tables.
  rewrite !distributionValue_sum. unfold getTeamsWithStats.
  induction Hall as [|t ts Hh _ IH]; [done|].
  cbn [map sumZ] in *.
  assert (Ht : totalBooks
                 (stats (teamWithStats (selectedDate st)
                           (Some (selectedDate st)) t))
               = totalBooks
                   (addObject zeroStats
                      (normBooks (teamWithStats (selectedDate st)
                                    (Some (selectedDate st)) t)))).
  { unfold teamWithStats, booksDataOf. rewrite Hh.
    destruct (books t) as [b|]; by destruct (negb (truthy _)). }
  rewrite Ht, addObject_zero_books. lia.
Qed.

Lemma dashboardBooks_flat_witness :
  dashboardBooks (mkAppState [legacyTeam] "" "all" "points" "2024-01-01") = 21.
Proof.
  rewrite (dashboardBooks_flat
             (mkAppState [legacyTeam] "" "all" "points" "2024-01-01")).
  - reflexivity.
  - by apply Forall_singleton.
Defined.

(** ** The leader roster *)

(** X15. Adding a leader keeps the names of the list distinct and
    non-empty, and adding the same name again changes nothing and sends
    nothing. *)
Theorem handleAddLeader_invariant (leaders : list string)
    (newLeader : string) :
  (NoDup leaders → NoDup (handleAddLeader leaders newLeader).1) ∧
  (EmptyString ∉ leaders →
     EmptyString ∉ (handleAddLeader leaders newLeader).1) ∧
  handleAddLeader (handleAddLeader leaders newLeader).1 newLeader
  = ((handleAddLeader leaders newLeader).1, None).
Proof.
  assert (Hcases :
    (truthy (Some newLeader) = true ∧ (newLeader ∉ leaders) ∧
     handleAddLeader leaders newLeader
     = (leaders ++ [newLeader], Some newLeader)) ∨
    ((truthy (Some newLeader) = false ∨ newLeader ∈ leaders) ∧
     handleAddLeader leaders newLeader = (leaders, None))).
  { unfold handleAddLeader. destruct (truthy (Some newLeader)); [|by right; auto].
    destruct (decide (newLeader ∈ leaders)) as [Hin|Hin].
    - right. rewrite bool_decide_eq_true_2 by done. auto.
    - left. by rewrite bool_decide_eq_false_2 by done. }
  destruct Hcases as [(Ht & Hnot & ->)|(Hor & ->)]; cbn [fst].
  - split; [|split].
    + intros Hnd. apply NoDup_app. repeat split; [done| |apply NoDup_singleton].
      intros x Hx ->%list_elem_of_singleton. done.
    + intros Hne [Hx|Hx%list_elem_of_singleton]%elem_of_app; [done|].
      by subst newLeader.
    + unfold handleAddLeader. rewrite Ht.
      rewrite bool_decide_eq_true_2; [done|].
      apply elem_of_app. right. by apply list_elem_of_singleton.
  - repeat split; try done. unfold handleAddLeader.
    destruct Hor as [->|Hin]; [done|].
    rewrite bool_decide_eq_true_2 by done. by rewrite andb_false_r.
Qed.

Lemma handleAddLeader_invariant_witness :
  NoDup ["Leader One"; "Leader Two"]%string ∧
  NoDup (handleAddLeader ["Leader One"; "Leader Two"]%string "Leader Two").1.
Proof.
  assert (H : NoDup ["Leader One"; "Leader Two"]%string).
  { apply NoDup_cons. split.
    - intros Hin. apply list_elem_of_singleton in Hin. discriminate Hin.
    - apply NoDup_singleton. }
  split; [exact H|].
  exact (proj1 (handleAddLeader_invariant _ "Leader Two") H).
Defined.

Lemma filter_not_elem (leader : string) (leaders : list string) :
  leader ∉ leaders →
  List.filter (λ l, negb (bool_decide (l = leader))) leaders = leaders.
Proof.
  induction leaders as [|x l IH]; [done|]. intros Hnot.
  apply not_elem_of_cons in Hnot as [Hne Hnot]. cbn [List.filter].
  rewrite bool_decide_eq_false_2 by done. cbn [negb]. by rewrite IH.
Qed.

(** X16. Adding a new leader and then deleting it gives back the list of
    leaders: provided the deletion is confirmed and the fetched roster holds
    a leader of that name, the list is as it was, and the id sent for
    deletion belongs to a fetched leader of that name. *)
Theorem handleDeleteLeader_after_add (leaders : list string)
    (newLeader : string) (leadersData : list LeaderDoc) :
  newLeader ≠ EmptyString →
  newLeader ∉ leaders →
  Exists (λ l, leaderName l = newLeader) leadersData →
  ∃ doc,
    handleDeleteLeader (handleAddLeader leaders newLeader).1 newLeader true
      leadersData
    = (leaders, Some (leaderId doc)) ∧
    doc ∈ leadersData ∧ leaderName doc = newLeader.
Proof.
  intros Hne Hnot Hex. unfold handleAddLeader.
  rewrite truthy_nonempty by done.
  rewrite bool_decide_eq_false_2 by done. cbn [andb negb fst].
  unfold handleDeleteLeader.
  destruct (find _ leadersData) as [doc|] eqn:Hfind.
  - apply find_some in Hfind as [Hin Hname].
    apply bool_decide_eq_true in Hname. exists doc.
    split; [|split; [by apply list_elem_of_In|done]].
    f_equal. rewrite List.filter_app. cbn [List.filter].
    rewrite bool_decide_eq_true_2 by done. cbn [negb].
    by rewrite app_nil_r, filter_not_elem.
  - apply Exists_exists in Hex as (doc & Hin & Hname).
    apply list_elem_of_In in Hin.
    pose proof (find_none _ _ Hfind doc Hin) as Hf. cbn in Hf.
    by rewrite bool_decide_eq_true_2 in Hf.
Qed.

Lemma handleDeleteLeader_after_add_witness :
  ∃ doc,
    handleDeleteLeader
      (handleAddLeader ["Leader One"]%string "Leader Two").1 "Leader Two" true
      [mkLeaderDoc "l1" "Leader One"; mkLeaderDoc "l2" "Leader Two"]
    = (["Leader One"]%string, Some (leaderId doc)).
Proof.
  destruct (handleDeleteLeader_after_add ["Leader One"]%string "Leader Two"
              [mkLeaderDoc "l1" "Leader One"; mkLeaderDoc "l2" "Leader Two"])
    as (doc & Hdoc & _).
  - discriminate.
  - intros Hin. apply list_elem_of_singleton in Hin. discriminate Hin.
  - apply Exists_cons_tl, Exists_cons_hd. reflexivity.
  - by exists doc.
Defined.

(** ** Searching *)

Lemma prefix_spec (sub s : string) :
  String.prefix sub s = true ↔ ∃ post, s = sub +:+ post.
Proof.
  revert s. induction sub as [|a sub IH]; intros s.
  - split; [intros _; by exists s|intros _; by destruct s].
  - destruct s as [|b s]; cbn [String.prefix].
    + split; [done|]. intros [post Hpost]. discriminate Hpost.
    + destruct (Ascii.ascii_dec a b) as [->|Hab].
      * rewrite IH. split; intros [post Hpost]; exists post.
        -- by rewrite Hpost.
        -- by injection Hpost.
      * split; [done|]. intros [post Hpost]. injection Hpost as ??. done.
Qed.

(** [includes] finds exactly the substrings. *)
Lemma includes_spec (s sub : string) :
  includes s sub = true ↔ ∃ pre post, s = pre +:+ sub +:+ post.
Proof.
  induction s as [|a s IH].
  - cbn [includes]. destruct (String.prefix sub "") eqn:Hp.
    + split; [|done]. intros _. apply prefix_spec in Hp as [post Hpost].
      by exists EmptyString, post.
    + split; [done|]. intros ([|b pre] & post & Hs); [|discriminate Hs].
      assert (String.prefix sub "" = true); [|congruence].
      apply prefix_spec. by exists post.
  - cbn [includes]. destruct (String.prefix sub (String a s)) eqn:Hp.
    + split; [|done]. intros _. apply prefix_spec in Hp as [post Hpost].
      by exists EmptyString, post.
    + rewrite IH. split.
      * intros (pre & post & ->). by exists (String a pre), post.
      * intros ([|b pre] & post & Hs).
        -- assert (String.prefix sub (String a s) = true); [|congruence].
           apply prefix_spec. by exists post.
        -- injection Hs as -> ->. by exists pre, post.
Qed.

Lemma toLowerCase_app (s1 s2 : string) :
  toLowerCase (s1 +:+ s2) = toLowerCase s1 +:+ toLowerCase s2.
Proof.
  induction s1 as [|a s1 IH]; [done|].
  change (String (lowerChar a) (toLowerCase (s1 +:+ s2))
          = String (lowerChar a) (toLowerCase s1 +:+ toLowerCase s2)).
  by rewrite IH.
Qed.

Lemma filter_sublist {A} (p : A → bool) (l : list A) :
  List.filter p l `sublist_of` l.
Proof.
  induction l as [|x l IH]; [done|]. cbn [List.filter].
  destruct (p x); [by apply sublist_skip|by apply sublist_cons].
Qed.

Lemma filter_sublist_impl {A} (p q : A → bool) (l : list A) :
  (∀ x, p x = true → q x = true) →
  List.filter p l `sublist_of` List.filter q l.
Proof.
  intros Hpq. induction l as [|x l IH]; [done|]. cbn [List.filter].
  destruct (p x) eqn:Hp.
  - rewrite (Hpq x Hp). by apply sublist_skip.
  - destruct (q x); [by apply sublist_cons|done].
Qed.

(** X17. Extending the search term never brings a team back: the teams kept
    for a term that contains the term [s] are among the teams kept for [s],
    in the same order.  This is stated for team names and terms of ASCII
    characters, where [toLowerCase] maps character by character. *)
Theorem filterByName_narrows (pre s post : string)
    (l : list TeamWithStats) :
  isAscii pre = true → isAscii s = true → isAscii post = true →
  Forall (λ t, isAscii (name (team t)) = true) l →
  filterByName (pre +:+ s +:+ post) l `sublist_of` filterByName s l.
Proof.
  intros Hpre Hs' Hpost Hnames. unfold filterByName.
  destruct (truthy (Some s)) eqn:Hs.
  - assert (Hlong : truthy (Some (pre +:+ s +:+ post)) = true).
    { destruct s as [|a s]; [done|]. by destruct pre. }
    rewrite Hlong. apply filter_sublist_impl. intros t. unfold nameMatches.
    rewrite !includes_spec, !toLowerCase_app.
    intros (pre' & post' & ->).
    exists (pre' +:+ toLowerCase pre), (toLowerCase post +:+ post').
    by rewrite !append_assoc.
  - destruct (truthy (Some (pre +:+ s +:+ post))); [|done].
    apply filter_sublist.
Qed.

Lemma filterByName_narrows_witness :
  filterByName "Alpha S" (getTeamsWithStats [teamBeta; legacyTeam] "2024-01-01" None)
  `sublist_of`
  filterByName "pha" (getTeamsWithStats [teamBeta; legacyTeam] "2024-01-01" None).
Proof.
  apply (filterByName_narrows "Al" "pha" " S"
           (getTeamsWithStats [teamBeta; legacyTeam] "2024-01-01" None));
    try reflexivity.
  repeat constructor.
Defined.

Lemma includes_empty (s : string) : includes s EmptyString = true.
Proof. by destruct s. Qed.

(** X18. The search boxes of the two modals select the teams that the main
    search selects, in the same order, although they filter without testing
    for an empty term; with an empty term they list every team. *)
Theorem modalFilteredTeams_main (ts : list Team) (term sel : string)
    (d : option string) :
  modalFilteredTeams ts term
  = map team (filterByName term (getTeamsWithStats ts sel d)) ∧
  modalFilteredTeams ts EmptyString = ts.
Proof.
  assert (Hfilter : modalFilteredTeams ts term
            = map team (List.filter (nameMatches term)
                          (getTeamsWithStats ts sel d))).
  { unfold modalFilteredTeams, getTeamsWithStats.
    rewrite filter_map_comm, map_map.
    rewrite <- (map_id (List.filter _ ts)) at 1.
    etrans; [|apply map_ext; intros t; symmetry; apply team_teamWithStats].
    f_equal. apply filter_ext. intros t. unfold nameMatches.
    by rewrite team_teamWithStats. }
  assert (Hempty : modalFilteredTeams ts EmptyString = ts).
  { unfold modalFilteredTeams. rewrite <- (filter_true ts) at 2.
    apply filter_ext. intros t. apply includes_empty. }
  split; [|done]. unfold filterByName.
  destruct (truthy (Some term)) eqn:Ht; [done|].
  assert (term = EmptyString) as -> by (by destruct term).
  rewrite Hempty. unfold getTeamsWithStats. rewrite map_map.
  rewrite <- (map_id ts) at 1. apply map_ext. intros t.
  symmetry. apply team_teamWithStats.
Qed.

(** ** The modals *)

Lemma filter_partition_Permutation {A} (p : A → bool) (l : list A) :
  List.filter p l ++ List.filter (λ x, negb (p x)) l ≡ₚ l.
Proof.
  induction l as [|x l IH]; [done|]. cbn [List.filter].
  destruct (p x); cbn [negb app].
  - by constructor.
  - rewrite <- Permutation_middle. by constructor.
Qed.

(** [Object.keys] lists every property once, whatever the order. *)
Lemma keyOrder_Permutation ks : keyOrder ks ≡ₚ ks.
Proof.
  unfold keyOrder. rewrite merge_sort_Permutation.
  apply filter_partition_Permutation.
Qed.

Lemma elem_of_keyOrder k ks : k ∈ keyOrder ks ↔ k ∈ ks.
Proof. by rewrite keyOrder_Permutation. Qed.

Lemma indexLe_total : Total indexLe.
Proof. intros k1 k2. unfold indexLe. lia. Qed.

Lemma indexLe_trans : Transitive indexLe.
Proof. intros k1 k2 k3. unfold indexLe. lia. Qed.

(** Names that are not array indices are listed as they were created. *)
Lemma keyOrder_names ks :
  Forall (λ k, isArrayIndex k = false) ks → keyOrder ks = ks.
Proof.
  intros Hks. unfold keyOrder.
  assert (List.filter isArrayIndex ks = []) as ->.
  { induction Hks as [|k ks Hk _ IH]; [done|]. cbn [List.filter].
    by rewrite Hk. }
  assert (List.filter (λ k, negb (isArrayIndex k)) ks = ks) as ->; [|done].
  induction Hks as [|k ks Hk _ IH]; [done|]. cbn [List.filter].
  rewrite Hk. cbn [negb]. by rewrite IH.
Qed.

Lemma objSet_Forall {A} (P : A → Prop) (o : list (string * A)) k v :
  Forall (λ kv, P kv.2) o → P v → Forall (λ kv, P kv.2) (objSet o k v).
Proof.
  intros Ho Hv. induction Ho as [|[k' v'] o Hkv Ho IH]; cbn [objSet].
  - by apply Forall_singleton.
  - destruct (bool_decide (k' = k)); constructor; done.
Qed.

Lemma prop_Forall {A} (P : A → Prop) (o : list (string * A)) k v :
  Forall (λ kv, P kv.2) o → prop o k = Some v → P v.
Proof.
  induction 1 as [|[k' v'] o Hkv _ IH]; cbn [prop]; [done|].
  destruct (bool_decide (k' = k)); [by intros [= <-]|done].
Qed.

Lemma prop_elem_of_keys {A} (o : list (string * A)) k :
  k ∈ keys o → is_Some (prop o k).
Proof.
  unfold keys. induction o as [|[k' v'] o IH]; cbn [map prop fst].
  - by intros ?%elem_of_nil.
  - intros Hin. destruct (bool_decide (k' = k)) eqn:Hk; [by eexists|].
    apply bool_decide_eq_false in Hk.
    apply elem_of_cons in Hin as [->|Hin]; [done|by apply IH].
Qed.

Lemma modalCounts_zeroCounts : modalCounts zeroCounts.
Proof.
  unfold modalCounts, zeroCounts.
  repeat (apply map_Forall_insert_2;
          [split; [unfold categories; set_solver|lia]|]).
  apply map_Forall_empty.
Qed.

Lemma modalCounts_initialUpdates teams :
  Forall (λ kv, modalCounts kv.2) (AdminUpdateScoreModal.initialUpdates teams).
Proof.
  unfold AdminUpdateScoreModal.initialUpdates.
  generalize (@nil (string * BookCounts)) (Forall_nil_2 (λ kv : string * BookCounts, modalCounts kv.2)).
  induction teams as [|t teams IH]; intros o Ho; [done|].
  cbn [fold_left]. apply IH, objSet_Forall; [done|].
  apply modalCounts_zeroCounts.
Qed.

Lemma modalCounts_handleBookChange prev teamId bookType parsed :
  bookType ∈ categories →
  Forall (λ kv, modalCounts kv.2) prev →
  Forall (λ kv, modalCounts kv.2)
    (AdminUpdateScoreModal.handleBookChange prev teamId bookType parsed).
Proof.
  intros Hk Hprev. unfold AdminUpdateScoreModal.handleBookChange.
  apply objSet_Forall; [done|]. apply map_Forall_insert_2; [split; [done|lia]|].
  destruct (prop prev teamId) as [c|] eqn:Hc; cbn [default].
  - by apply (prop_Forall modalCounts prev teamId).
  - apply map_Forall_empty.
Qed.

Lemma modalCounts_applyChanges s changes :
  Forall (λ c, changeType c ∈ categories) changes →
  Forall (λ kv, modalCounts kv.2) s →
  Forall (λ kv, modalCounts kv.2) (applyChanges s changes).
Proof.
  intros Hch. revert s. unfold applyChanges.
  induction Hch as [|c changes Hc _ IH]; intros s Hs; [done|].
  cbn [fold_left]. by apply IH, modalCounts_handleBookChange.
Qed.

Lemma somePositive_spec (c : BookCounts) :
  AdminUpdateScoreModal.somePositive c = true →
  ∃ k v, c !! k = Some v ∧ 0 < v.
Proof.
  unfold AdminUpdateScoreModal.somePositive.
  intros ([k v] & Hin & Hpos)%existsb_exists.
  exists k, v. split; [|by apply Z.ltb_lt].
  by apply elem_of_map_to_list, list_elem_of_In.
Qed.

(** Counts with one positive entry are worth something. *)
Lemma modalCounts_positive (c : BookCounts) k v :
  modalCounts c → c !! k = Some v → 0 < v →
  0 < totalBooks (calculateStats (Obj (mkBookObj None c)) None) ∧
  (0 < totalPoints (calculateStats (Obj (mkBookObj None c)) None))%Q.
Proof.
  intros Hc Hk Hv. set (o := mkBookObj None c).
  assert (Ho : nonNegative o).
  { intros k' v' Hk'. by destruct (Hc k' v' Hk'). }
  assert (Hkv : countOf o k = v) by (unfold countOf; cbn; by rewrite Hk).
  destruct (Hc k v Hk) as [Hcat _].
  pose proof (countOf_nonNegative o "Bhagavatam" Ho).
  pose proof (countOf_nonNegative o "CC" Ho).
  pose proof (countOf_nonNegative o "MBB" Ho).
  pose proof (countOf_nonNegative o "BB" Ho).
  pose proof (countOf_nonNegative o "MB" Ho).
  pose proof (countOf_nonNegative o "SB" Ho).
  unfold calculateStats.
  rewrite addObject_zero_books, addObject_zero_points. unfold quarters.
  apply elem_of_categories in Hcat as [-> | [-> | [-> | [-> | [-> | ->]]]]];
    (split; [lia|unfold Qlt; cbn [Qnum Qden]; lia]).
Qed.

(** X19. Whatever is typed into the score modal, every update it hands
    over is dated with the selected date, has no negative count and is
    worth something: its book total and its point total are positive.  A
    team left at zero is never updated. *)
Theorem scoreModal_updates_positive (ts : list Team)
    (changes : list BookChange) (selectedDate : string)
    (updates : list ScoreUpdate) :
  Forall (λ c, changeType c ∈ categories) changes →
  AdminUpdateScoreModal.handleUpdate selectedDate
    (applyChanges (AdminUpdateScoreModal.initialUpdates ts) changes)
  = Some updates →
  updates ≠ [] ∧
  Forall (λ u,
            updDate u = selectedDate ∧
            map_Forall (λ _ v, 0 ≤ v) (updBooks u) ∧
            0 < totalBooks
                  (calculateStats (Obj (mkBookObj None (updBooks u))) None) ∧
            (0 < totalPoints
                   (calculateStats (Obj (mkBookObj None (updBooks u))) None))%Q)
    updates.
Proof.
  intros Hch. set (s := applyChanges _ _).
  assert (Hs : Forall (λ kv, modalCounts kv.2) s).
  { apply modalCounts_applyChanges; [done|apply modalCounts_initialUpdates]. }
  unfold AdminUpdateScoreModal.handleUpdate.
  destruct (bool_decide _) eqn:Hlen; [done|]. intros [= <-].
  apply bool_decide_eq_false in Hlen. split.
  { intros Hnil. by rewrite Hnil in Hlen. }
  apply Forall_fmap, Forall_forall. intros teamId Hin.
  apply list_elem_of_In, filter_In in Hin as [Hin Hpos].
  cbn [updDate updBooks]. split; [done|].
  apply list_elem_of_In, elem_of_keyOrder, prop_elem_of_keys in Hin as [c Hc].
  rewrite Hc in *. cbn [default] in *.
  pose proof (prop_Forall modalCounts s teamId c Hs Hc) as Hmodal.
  destruct (somePositive_spec c Hpos) as (k & v & Hk & Hv).
  split; [|by apply (modalCounts_positive c k v)].
  intros k' v' Hk'. by destruct (Hmodal k' v' Hk').
Qed.

Lemma scoreModal_updates_positive_witness :
  ∃ updates,
    AdminUpdateScoreModal.handleUpdate "2024-01-01"
      (applyChanges (AdminUpdateScoreModal.initialUpdates [legacyTeam; teamBeta])
         [mkBookChange "t2" "MBB" (Some 3); mkBookChange "t1" "CC" None])
    = Some updates ∧ updates ≠ [] ∧ map teamId updates = ["t2"%string].
Proof.
  eexists. split; [reflexivity|]. split; [|reflexivity].
  eapply (proj1 (scoreModal_updates_positive [legacyTeam; teamBeta]
            [mkBookChange "t2" "MBB" (Some 3); mkBookChange "t1" "CC" None]
            "2024-01-01" _ _ eq_refl)).
  Unshelve.
  repeat constructor; cbn [changeType]; unfold categories; set_solver.
Defined.

Lemma objSet_keys {A} (o : list (string * A)) k v :
  keys (objSet o k v)
  = if bool_decide (k ∈ keys o) then keys o else keys o ++ [k].
Proof.
  unfold keys. induction o as [|[k' v'] o IH]; cbn [objSet map fst].
  - rewrite bool_decide_eq_false_2; [done|]. by intros ?%elem_of_nil.
  - destruct (bool_decide (k' = k)) eqn:Hk.
    + apply bool_decide_eq_true in Hk as ->. cbn [map fst].
      rewrite bool_decide_eq_true_2; [done|]. by left.
    + apply bool_decide_eq_false in Hk. cbn [map fst]. rewrite IH.
      destruct (bool_decide (k ∈ map fst o)) eqn:Hin.
      * apply bool_decide_eq_true in Hin.
        rewrite bool_decide_eq_true_2; [done|]. by right.
      * apply bool_decide_eq_false in Hin.
        rewrite bool_decide_eq_false_2; [done|].
        intros [?|?]%elem_of_cons; done.
Qed.

Lemma objSet_keys_NoDup {A} (o : list (string * A)) k v :
  NoDup (keys o) → NoDup (keys (objSet o k v)).
Proof.
  intros Hnd. rewrite objSet_keys.
  destruct (bool_decide (k ∈ keys o)) eqn:Hin; [done|].
  apply bool_decide_eq_false in Hin.
  apply NoDup_app. split; [done|]. split; [|apply NoDup_singleton].
  intros x Hx ->%list_elem_of_singleton. done.
Qed.

(** The score modal hands over at most one update per team. *)
Lemma scoreModal_updates_NoDup (ts : list Team) (changes : list BookChange)
    (selectedDate : string) (updates : list ScoreUpdate) :
  AdminUpdateScoreModal.handleUpdate selectedDate
    (applyChanges (AdminUpdateScoreModal.initialUpdates ts) changes)
  = Some updates →
  NoDup (map teamId updates).
Proof.
  set (s := applyChanges _ _).
  assert (Hs : NoDup (keys s)).
  { unfold s, applyChanges, AdminUpdateScoreModal.initialUpdates.
    assert (Hinit : ∀ o, NoDup (keys o) →
              NoDup (keys (fold_left
                             (λ (o : list (string * BookCounts)) team,
                                objSet o (id team) zeroCounts) ts o))).
    { induction ts as [|t l IH]; intros o Ho; [done|].
      cbn [fold_left]. by apply IH, objSet_keys_NoDup. }
    specialize (Hinit [] (NoDup_nil_2 : NoDup (keys (@nil (string * BookCounts))))).
    revert Hinit. generalize (fold_left
      (λ (o : list (string * BookCounts)) team,
         objSet o (id team) zeroCounts) ts []).
    induction changes as [|c changes IH]; intros o Ho; [done|].
    cbn [fold_left]. apply IH.
    unfold AdminUpdateScoreModal.handleBookChange. by apply objSet_keys_NoDup. }
  unfold AdminUpdateScoreModal.handleUpdate.
  destruct (bool_decide _); [done|]. intros [= <-].
  rewrite map_map. cbn [teamId]. rewrite map_id.
  apply NoDup_ListNoDup, List.NoDup_filter, NoDup_ListNoDup.
  unfold ownKeys. by rewrite keyOrder_Permutation.
Qed.

Lemma objSet_fresh {A} (o : list (string * A)) k v :
  k ∉ keys o → objSet o k v = o ++ [(k, v)].
Proof.
  unfold keys. induction o as [|[k' v'] o IH]; cbn [objSet map fst]; [done|].
  intros [Hne Hnot]%not_elem_of_cons.
  rewrite bool_decide_eq_false_2 by done. by rewrite IH.
Qed.

Lemma fold_objSet_fresh {A} (f : Team → A) (ts : list Team)
    (o : list (string * A)) :
  NoDup (keys o ++ map id ts) →
  fold_left (λ o team, objSet o (id team) (f team)) ts o
  = o ++ map (λ t, (id t, f t)) ts.
Proof.
  revert o. induction ts as [|t ts IH]; intros o Hnd; cbn [fold_left map].
  - by rewrite app_nil_r.
  - cbn [map] in Hnd.
    assert (Hfresh : id t ∉ keys o).
    { apply NoDup_app in Hnd as (_ & Hdisj & _). intros Hin.
      apply (Hdisj _ Hin). by left. }
    rewrite objSet_fresh by done. rewrite IH.
    + by rewrite <- app_assoc.
    + unfold keys in *. rewrite map_app. cbn [map fst].
      by rewrite <- app_assoc.
Qed.

Lemma prop_map_NoDup {A} (f : Team → A) (ts : list Team) t :
  NoDup (map id ts) → t ∈ ts →
  prop (map (λ t, (id t, f t)) ts) (id t) = Some (f t).
Proof.
  induction ts as [|t' ts IH]; intros Hnd Hin; [by apply elem_of_nil in Hin|].
  cbn [map] in *. apply NoDup_cons in Hnd as [Hnot Hnd]. cbn [prop].
  apply elem_of_cons in Hin as [->|Hin].
  - by rewrite bool_decide_eq_true_2.
  - rewrite bool_decide_eq_false_2; [by apply IH|].
    intros Heq. apply Hnot. rewrite Heq. by apply list_elem_of_fmap_2.
Qed.

Lemma omap_cons_Some {A B} (f : A → option B) (x : A) (y : B) (l : list A) :
  f x = Some y → omap f (x :: l) = y :: omap f l.
Proof. intros Hx. cbn. by rewrite Hx. Qed.

Lemma find_elem_id (ts : list Team) t :
  t ∈ ts → is_Some (find (λ t', bool_decide (id t' = id t)) ts).
Proof.
  intros Hin. destruct (find _ ts) as [t'|] eqn:Hfind; [by eexists|].
  by destruct (find_none_id _ _ _ Hfind Hin).
Qed.

Lemma find_id_Some (ts : list Team) tid :
  is_Some (find (λ t, bool_decide (id t = tid)) ts) ↔ tid ∈ map id ts.
Proof.
  split.
  - intros [t Hfind]. apply find_some_id in Hfind as [Hin <-].
    by apply list_elem_of_fmap_2.
  - intros (t & -> & Hin)%list_elem_of_fmap. by apply find_elem_id.
Qed.

(** X20. Opening the Edit Teams modal and pressing Update All Teams without
    an edit hands over one update per team, with the team's own [books]
    (zero counts for a team without), provided the team ids are distinct.
    The updates come in the order in which the ids are listed as property
    names: the ids that are array indices first, in ascending numeric
    order, then the other ids in stored order.  So the updates are in
    stored order when no id is an array index. *)
Theorem editTeams_no_edit (ts : list Team) :
  NoDup (map id ts) →
  let updates :=
    EditTeamsModal.handleUpdate ts (EditTeamsModal.initialEdits ts) in
  let own := λ t, (id t, default (mkBookObj None zeroCounts) (books t)) in
  updates ≡ₚ map own ts ∧
  (∃ indices,
     map fst updates
     = indices ++ List.filter (λ k, negb (isArrayIndex k)) (map id ts) ∧
     indices ≡ₚ List.filter isArrayIndex (map id ts) ∧
     StronglySorted (λ k1 k2, readDigits 0 k1 ≤ readDigits 0 k2) indices) ∧
  (Forall (λ t, isArrayIndex (id t) = false) ts → updates = map own ts).
Proof.
  intros Hnd updates own.
  set (edits := map own ts).
  set (entry := λ teamId : string,
                  (teamId, default emptyObj (prop edits teamId))).
  assert (Hupdates : updates = map entry (keyOrder (map id ts))).
  { unfold updates, EditTeamsModal.initialEdits.
    rewrite (fold_objSet_fresh
               (λ t, default (mkBookObj None zeroCounts) (books t))) by done.
    cbn [app]. fold own. fold edits. unfold EditTeamsModal.handleUpdate, ownKeys.
    assert (Hkeys : keys edits = map id ts).
    { unfold keys, edits. rewrite map_map. by apply map_ext. }
    rewrite Hkeys.
    assert (Hall : ∀ l, l ⊆ map id ts →
              omap (λ teamId,
                      match find (λ t, bool_decide (id t = teamId)) ts with
                      | None => None
                      | Some _ =>
                          Some (teamId, default emptyObj (prop edits teamId))
                      end) l
              = map entry l).
    { induction l as [|k l IH]; intros Hsub; [done|].
      assert (Hin : k ∈ map id ts) by (apply Hsub; by left).
      apply find_id_Some in Hin as [t' Hfind].
      erewrite omap_cons_Some.
      - cbn [map]. f_equal. apply IH. intros x Hx. apply Hsub. by right.
      - cbv beta. by rewrite Hfind. }
    apply Hall. intros k Hk. by apply (elem_of_keyOrder k (map id ts)). }
  assert (Hentry : map entry (map id ts) = edits).
  { unfold edits. rewrite map_map. apply map_ext_in. intros t Hin.
    apply list_elem_of_In in Hin.
    unfold entry, edits, own.
    by rewrite (prop_map_NoDup
                  (λ t, default (mkBookObj None zeroCounts) (books t))). }
  split; [|split].
  - rewrite Hupdates, <- Hentry. apply fmap_Permutation, keyOrder_Permutation.
  - exists (merge_sort indexLe (List.filter isArrayIndex (map id ts))).
    split; [|split].
    + rewrite Hupdates, map_map. cbn [fst]. by rewrite map_id.
    + apply merge_sort_Permutation.
    + apply (@StronglySorted_merge_sort _ indexLe _
               indexLe_trans indexLe_total).
  - intros Hnames. rewrite Hupdates, keyOrder_names; [done|].
    by apply Forall_fmap.
Qed.

Lemma editTeams_no_edit_witness :
  EditTeamsModal.handleUpdate [legacyTeam; teamBeta]
    (EditTeamsModal.initialEdits [legacyTeam; teamBeta])
  = [("t1"%string, scenarioA); ("t2"%string, mkBookObj None zeroCounts)].
Proof.
  refine (proj2 (proj2 (editTeams_no_edit [legacyTeam; teamBeta] _)) _).
  - cbn [map id legacyTeam teamBeta]. apply NoDup_cons. split.
    + intros Hin. apply list_elem_of_singleton in Hin. discriminate Hin.
    + apply NoDup_singleton.
  - repeat constructor.
Defined.

(** Ids that are array indices: the team stored second is updated first. *)
Lemma editTeams_index_order :
  map fst (EditTeamsModal.handleUpdate indexTeams
             (EditTeamsModal.initialEdits indexTeams))
  = ["2"%string; "10"%string].
Proof. reflexivity. Qed.

(** ** The normalised history *)

(** X21. The history that [getTeamsWithStats] attaches to a team accounts
    for the stats it attaches: summed without a date filter it gives the
    team's cumulative stats, and, for a flat object without a date of its
    own, filtered by the selected date it gives the stats of the view. *)
Theorem normHistory_stats (sel : string) (t : Team) :
  calculateStats (Arr (normHistory (teamWithStats sel None t))) None
  = stats (teamWithStats sel None t) ∧
  (sel ≠ EmptyString →
   (∀ o, booksDataOf t = Obj o → date o = None) →
   calculateStats (Arr (normHistory (teamWithStats sel (Some sel) t)))
     (Some sel)
   = stats (teamWithStats sel (Some sel) t)).
Proof.
  unfold teamWithStats. split.
  - destruct (booksDataOf t) as [o|h]; [|done].
    by destruct (negb (truthy (date o))).
  - intros Hsel Hdate. destruct (booksDataOf t) as [o|h] eqn:Hdata; [|done].
    specialize (Hdate o eq_refl).
    assert (Hview : calculateStats (Arr [withDate sel o]) (Some sel)
                    = calculateStats (Obj o) (Some sel)).
    { rewrite calculateStats_history, truthy_nonempty by done.
      unfold withDate. rewrite Hdate. cbn [default].
      rewrite filter_cons. cbn [date]. by rewrite decide_True. }
    by destruct (negb (truthy (date o))).
Qed.

Lemma normHistory_stats_witness :
  calculateStats
    (Arr (normHistory
            (teamWithStats "2024-01-01" (Some "2024-01-01"%string) legacyTeam)))
    (Some "2024-01-01"%string)
  = stats (teamWithStats "2024-01-01" (Some "2024-01-01"%string) legacyTeam).
Proof.
  apply (proj2 (normHistory_stats "2024-01-01" legacyTeam)).
  - discriminate.
  - intros o [= <-]. reflexivity.
Defined.

(** ** The printed point total *)

Lemma digitValue_pretty_N_char (k : N) :
  (k < 10)%N → digitValue (pretty_N_char k) = Z.of_N k.
Proof.
  intros Hk.
  assert (k = 0 ∨ k = 1 ∨ k = 2 ∨ k = 3 ∨ k = 4 ∨ k = 5 ∨ k = 6 ∨ k = 7
          ∨ k = 8 ∨ k = 9)%N as Hcases by lia.
  repeat (destruct Hcases as [->|Hcases]; [reflexivity|]). by subst.
Qed.

Lemma readDigits_pretty_N_go (x : N) (s : string) :
  readDigits 0 (pretty_N_go x s) = readDigits (Z.of_N x) s.
Proof.
  revert s. induction (N.lt_wf_0 x) as [x _ IH]; intros s.
  destruct (decide (x = 0)%N) as [->|Hx]; [by rewrite pretty_N_go_0|].
  rewrite pretty_N_go_step by lia.
  rewrite IH by (apply N.div_lt; lia). cbn [readDigits].
  rewrite digitValue_pretty_N_char by (apply N.mod_lt; lia).
  f_equal. pose proof (N.div_mod x 10 ltac:(lia)). lia.
Qed.

Lemma readDigits_pretty_Z (z : Z) : 0 ≤ z → readDigits 0 (pretty z) = z.
Proof.
  destruct z as [|p|p]; [done| |lia]. intros _.
  change (pretty (Z.pos p)) with (pretty_N_go (N.pos p) "").
  by rewrite readDigits_pretty_N_go.
Qed.

Lemma digitValue_digitChar (d : Z) :
  0 ≤ d < 10 → digitValue (digitChar d) = d.
Proof.
  intros Hd.
  assert (d = 0 ∨ d = 1 ∨ d = 2 ∨ d = 3 ∨ d = 4 ∨ d = 5 ∨ d = 6 ∨ d = 7
          ∨ d = 8 ∨ d = 9) as Hcases by lia.
  repeat (destruct Hcases as [->|Hcases]; [reflexivity|]). by subst.
Qed.

Lemma stripMinus_pretty (z : Z) (rest : string) :
  0 ≤ z → stripMinus (pretty z +:+ rest) = (false, pretty z +:+ rest).
Proof.
  intros Hz. destruct (pretty z) as [|c s] eqn:Hp.
  - destruct rest as [|c rest]; [done|]. cbn [stripMinus String.append].
    exfalso. destruct z as [|p|p]; [done| |lia].
    change (pretty (Z.pos p)) with (pretty_N_go (N.pos p) "") in Hp.
    pose proof (readDigits_pretty_N_go (N.pos p) "") as Hr.
    rewrite Hp in Hr. cbn in Hr. lia.
  - change (String c s +:+ rest) with (String c (s +:+ rest)).
    cbn [stripMinus]. rewrite bool_decide_eq_false_2; [done|].
    intros ->. destruct z as [|p|p]; [done| |lia].
    change (pretty (Z.pos p)) with (pretty_N_go (N.pos p) "") in Hp.
    by apply (pretty_N_go_ne_dash (N.pos p) "" s) in Hp.
Qed.

Lemma Qfloor_quarters (a : Z) :
  Qfloor ((a # 4) * 100 + (1 # 2)) = 25 * a.
Proof.
  unfold Qfloor, Qplus, Qmult. cbn [Qnum Qden].
  change (Z.pos (4 * 1 * 2)) with 8. change (Z.pos (4 * 1)) with 4.
  symmetry. apply Z.div_unique with (r := 4); lia.
Qed.

(** The text of a point total given in quarter points reads back as that
    total. *)
Lemma readFixed2_quarters (z : Z) :
  ∃ q, readFixed2 (toFixed2 (z # 4)) = Some q ∧ (q == z # 4)%Q.
Proof.
  unfold toFixed2.
  change (Qabs (z # 4)) with (Z.abs z # 4)%Q.
  rewrite Qfloor_quarters. set (n := 25 * Z.abs z).
  assert (Hn : 0 ≤ n) by lia.
  assert (Hwhole : 0 ≤ n / 100) by (apply Z.div_pos; lia).
  destruct (toFixed2_digits n) as [Hd1 Hd2].
  set (fraction := String (digitChar (n mod 100 / 10))
                     (String (digitChar (n mod 10)) EmptyString)).
  assert (Hsplit : split "." (pretty (n / 100) +:+ "." +:+ fraction)
                   = [pretty (n / 100); fraction]).
  { etrans; [apply (split_app "." (pretty (n / 100)) fraction)|].
    - by apply contains_pretty_Z.
    - f_equal. apply split_absent. unfold fraction. cbn [contains].
      rewrite !bool_decide_eq_false_2; [done|intros Heq..];
        [rewrite Heq in Hd2|rewrite Heq in Hd1]; discriminate. }
  assert (Hvalue : readDigits 0 (pretty (n / 100)) * 100
                   + readDigits 0 fraction = n).
  { rewrite readDigits_pretty_Z by done. unfold fraction. cbn [readDigits].
    pose proof (Z.mod_pos_bound n 100 ltac:(lia)).
    rewrite !digitValue_digitChar.
    - Z.div_mod_to_equations. lia.
    - apply Z.mod_pos_bound. lia.
    - split; [apply Z.div_pos; lia|apply Z.div_lt_upper_bound; lia]. }
  unfold readFixed2. destruct (Qle_bool 0 (z # 4)) eqn:Hsign.
  - assert (Hz : 0 ≤ z).
    { apply Qle_bool_iff in Hsign. unfold Qle in Hsign. cbn in Hsign. lia. }
    change (EmptyString +:+ ?s) with s.
    rewrite stripMinus_pretty by done. rewrite Hsplit, Hvalue.
    eexists. split; [reflexivity|]. unfold Qeq, n. cbn [Qnum Qden]. lia.
  - assert (Hz : z < 0).
    { destruct (Z.lt_ge_cases z 0) as [|Hge]; [done|].
      assert (Qle_bool 0 (z # 4) = true); [|congruence].
      apply Qle_bool_iff. unfold Qle. cbn. lia. }
    change ("-" +:+ ?s) with (String "-" s).
    cbn [stripMinus]. rewrite bool_decide_eq_true_2 by done.
    rewrite Hsplit, Hvalue.
    eexists. split; [reflexivity|]. unfold Qeq, n. cbn [Qnum Qden]. lia.
Qed.

Lemma toFixed2_Qeq (x y : Q) : (x == y)%Q → toFixed2 x = toFixed2 y.
Proof.
  intros Hxy. unfold toFixed2.
  assert (Hsign : Qle_bool 0 x = Qle_bool 0 y).
  { destruct (Qle_bool 0 y) eqn:Hy.
    - apply Qle_bool_iff. rewrite Hxy. by apply Qle_bool_iff.
    - destruct (Qle_bool 0 x) eqn:Hx; [|done].
      apply Qle_bool_iff in Hx. rewrite Hxy in Hx.
      apply Qle_bool_iff in Hx. congruence. }
  assert (Hn : Qfloor (Qabs x * 100 + (1 # 2))
               = Qfloor (Qabs y * 100 + (1 # 2))).
  { apply Qfloor_comp. by rewrite Hxy. }
  by rewrite Hsign, Hn.
Qed.

(** X22. The text printed for a point total denotes exactly that total:
    [toFixed(2)] never has to round, since every total is a whole number of
    quarter points.  Read back as sign, digits, point and two digits, the
    Total Points field gives the team's points. *)
Theorem toFixed2_exact (booksData : BookData) (d : option string) :
  ∃ q,
    readFixed2 (toFixed2 (totalPoints (calculateStats booksData d))) = Some q ∧
    (q == totalPoints (calculateStats booksData d))%Q.
Proof.
  destruct (calculateStats_quarters booksData d) as (z & Hz & _).
  rewrite (toFixed2_Qeq _ _ Hz).
  destruct (readFixed2_quarters z) as (q & Hq & Hqz).
  exists q. split; [done|]. by rewrite Hz.
Qed.

(** ** The two revisions of the stats calculation *)

Lemma prop_list_to_map (books : list (string * Z)) (k : string) :
  prop books k = (list_to_map books : gmap string Z) !! k.
Proof.
  induction books as [|[k' v] books IH]; [done|].
  cbn [prop list_to_map foldr]. rewrite lookup_insert.
  change (foldr (λ '(k0, v0), <[k0:=v0]>) ∅ books)
    with (list_to_map books : gmap string Z).
  cbn [fst snd]. destruct (decide (k' = k)) as [->|Hne].
  - by rewrite bool_decide_eq_true_2.
  - by rewrite bool_decide_eq_false_2.
Qed.

Lemma sumQ_filter_zero {A} (g : A → Q) (P : A → Prop)
    `{!∀ x, Decision (P x)} (l : list A) :
  (∀ x, ¬ P x → (g x == 0)%Q) →
  (sumQ (map g l) == sumQ (map g (filter P l)))%Q.
Proof.
  intros Hzero. induction l as [|x l IH]; [reflexivity|].
  rewrite filter_cons. cbn [map sumQ].
  destruct (decide (P x)) as [Hx|Hx]; cbn [map sumQ]; rewrite IH.
  - reflexivity.
  - rewrite (Hzero x Hx). ring.
Qed.

Lemma NoDup_categories : NoDup categories.
Proof.
  apply (bool_decide_unpack _). by vm_compute.
Qed.

Lemma BOOK_VALUES_category k :
  k ∈ categories → is_Some (prop BOOK_VALUES k).
Proof.
  intros Hk.
  apply elem_of_categories in Hk as [-> | [-> | [-> | [-> | [-> | ->]]]]];
    by eexists.
Qed.

(** X23. On a [books] object whose properties are categories of the table,
    the first revision and the latest revision of the stats calculation
    give the same point total. *)
Theorem legacy_points_agree (books : Legacy.Books) :
  NoDup (keys books) →
  Forall (λ k, k ∈ categories) (keys books) →
  ∃ points,
    Legacy.totalPoints (Legacy.calculateStats books) = Some points ∧
    (points
     == totalPoints
          (calculateStats (Obj (mkBookObj None (list_to_map books))) None))%Q.
Proof.
  intros Hnd Hcat.
  destruct (legacy_calculateStats_known books) as (points & Hpoints & Hsum).
  { eapply Forall_impl; [exact Hcat|]. apply BOOK_VALUES_category. }
  exists points. split; [exact Hpoints|]. rewrite Hsum. clear points Hpoints Hsum.
  set (o := mkBookObj None (list_to_map books)).
  set (g := λ k, (inject_Z (countOf o k) * default 0 (prop BOOK_VALUES k))%Q).
  assert (Hleft : map (λ k, (inject_Z (default 0%Z (prop books k))
                             * default 0 (prop BOOK_VALUES k))%Q) (keys books)
                  = map g (keys books)).
  { apply map_ext. intros k. unfold g, countOf, o. cbn [counts].
    by rewrite prop_list_to_map. }
  rewrite Hleft.
  assert (Hright : (totalPoints (calculateStats (Obj o) None)
                    == sumQ (map g categories))%Q).
  { unfold calculateStats. unroll_categories. unfold g, categories.
    cbn [map sumQ]. autorewrite with tables. ring. }
  rewrite Hright.
  rewrite (sumQ_filter_zero g (λ k, k ∈ keys books) categories).
  - apply sumQ_Permutation, fmap_Permutation, NoDup_Permutation.
    + exact Hnd.
    + apply NoDup_filter, NoDup_categories.
    + intros k. rewrite list_elem_of_filter. split; [|by intros [? _]].
      intros Hk. split; [done|]. rewrite Forall_forall in Hcat. by apply Hcat.
  - intros k Hk. unfold g, countOf, o. cbn [counts].
    assert (Hnone : (list_to_map books : gmap string Z) !! k = None)
      by (apply not_elem_of_list_to_map_1; exact Hk).
    rewrite Hnone. cbn [default]. ring.
Qed.

Lemma legacy_points_agree_witness :
  ∃ points,
    Legacy.totalPoints (Legacy.calculateStats sampleLegacyBooks)
    = Some points ∧
    (points
     == totalPoints
          (calculateStats
             (Obj (mkBookObj None (list_to_map sampleLegacyBooks))) None))%Q.
Proof.
  apply (legacy_points_agree sampleLegacyBooks).
  - apply (bool_decide_unpack _). by vm_compute.
  - apply (bool_decide_unpack _). by vm_compute.
Defined.

(** ** More on the two update paths *)

(** X24. Raising a non-negative count by some amount and lowering it by the
    same amount gives back every count of the team; the clamp at zero only
    bites the other way round. *)
Theorem handleUpdateBookCount_up_down (t : Team) (bookType : string)
    (delta : Z) (k : string) :
  0 ≤ delta →
  0 ≤ countOf (default emptyObj (books t)) bookType →
  countOf
    (updatedBooks (setBooks t (updatedBooks t bookType delta))
       bookType (- delta)) k
  = countOf (default emptyObj (books t)) k.
Proof.
  intros Hd Hc. unfold updatedBooks. cbv zeta. cbn [setBooks books].
  set (cur := default emptyObj (books t)) in *.
  change (default emptyObj (Some ?x)) with x.
  destruct (decide (bookType = k)) as [->|Hne].
  - rewrite !countOf_setCount_eq. lia.
  - by rewrite !countOf_setCount_ne.
Qed.

Lemma handleUpdateBookCount_up_down_witness :
  countOf
    (updatedBooks (setBooks legacyTeam (updatedBooks legacyTeam "MBB" 4))
       "MBB" (- 4)) "MBB"
  = countOf (default emptyObj (books legacyTeam)) "MBB".
Proof.
  apply (handleUpdateBookCount_up_down legacyTeam "MBB" 4 "MBB"); by vm_compute.
Defined.

Lemma mutateHistory_ids tid h ts :
  map id (mutateHistory tid h ts) = map id ts.
Proof.
  induction ts as [|t ts IH]; [done|]. cbn [mutateHistory].
  destruct (bool_decide (id t = tid)); cbn [map]; [done|]. by rewrite IH.
Qed.

Lemma scoreUpdateStep_known today ts u :
  match scoreUpdateStep today ts u with
  | Some (ts', w) =>
      teamId u ∈ map id ts ∧ map id ts' = map id ts ∧
      writeId w = teamId u ∧ writeBooks w = updBooks u
  | None => teamId u ∉ map id ts
  end.
Proof.
  unfold scoreUpdateStep.
  destruct (find _ ts) as [t|] eqn:Hfind.
  - assert (Hin : teamId u ∈ map id ts) by (apply find_id_Some; by eexists).
    destruct (booksHistory t) as [[o|h]|]; repeat split; try done.
    apply mutateHistory_ids.
  - intros Hin%find_id_Some. rewrite Hfind in Hin. by destruct Hin.
Qed.

(** The calls made by the loop: those for the known updates, in order, up
    to and with the first one that is rejected. *)
Lemma scoreUpdateLoop_writes today resolves ids updates ts writes :
  map id ts = ids →
  ∃ n,
    (n ≤ length (List.filter (λ u, bool_decide (teamId u ∈ ids)) updates))%nat ∧
    map (λ w, (writeId w, writeBooks w))
      (runWrites (scoreUpdateLoop today resolves updates ts writes))
    = map (λ w, (writeId w, writeBooks w)) writes
      ++ take n (map (λ u, (teamId u, updBooks u))
                   (List.filter (λ u, bool_decide (teamId u ∈ ids)) updates)) ∧
    (∀ j, (S j < n)%nat → resolves (length writes + j)%nat = true) ∧
    (runClosed (scoreUpdateLoop today resolves updates ts writes) = true →
       n = length (List.filter (λ u, bool_decide (teamId u ∈ ids)) updates) ∧
       ∀ j, (j < n)%nat → resolves (length writes + j)%nat = true) ∧
    (runClosed (scoreUpdateLoop today resolves updates ts writes) = false →
       ∃ j, n = S j ∧ resolves (length writes + j)%nat = false).
Proof.
  revert ts writes.
  induction updates as [|u us IH]; intros ts writes Hids;
    cbn [scoreUpdateLoop List.filter].
  { exists 0%nat. cbn [runWrites runClosed length take map].
    rewrite app_nil_r. repeat split; try done; lia. }
  pose proof (scoreUpdateStep_known today ts u) as Hstep.
  destruct (scoreUpdateStep today ts u) as [[ts' w]|].
  - destruct Hstep as (Hin & Hids' & Hid & Hbooks). rewrite Hids in Hin, Hids'.
    rewrite (bool_decide_eq_true_2 _ Hin). cbn [map length].
    destruct (resolves (length writes)) eqn:Hres.
    + destruct (IH ts' (writes ++ [w]) Hids')
        as (n & Hn & Hsent & Hbefore & Hclosed & Hfailed).
      assert (Hshift : ∀ j, (length (writes ++ [w]) + j
                             = length writes + S j)%nat).
      { intros j. rewrite length_app. cbn [length]. lia. }
      exists (S n). split; [lia|]. split; [|split; [|split]].
      * rewrite Hsent, map_app. cbn [map take]. rewrite Hid, Hbooks.
        by rewrite <- app_assoc.
      * intros [|j] Hj; [by rewrite Nat.add_0_r|].
        rewrite <- Hshift. apply Hbefore. lia.
      * intros Hc. destruct (Hclosed Hc) as [-> Hall]. split; [done|].
        intros [|j] Hj; [by rewrite Nat.add_0_r|].
        rewrite <- Hshift. apply Hall. lia.
      * intros Hc. destruct (Hfailed Hc) as (j & -> & Hj).
        exists (S j). split; [done|]. by rewrite <- Hshift.
    + exists 1%nat. cbn [runWrites runClosed take]. split; [lia|].
      split; [|split; [|split]].
      * rewrite map_app. cbn [map]. rewrite Hid, Hbooks.
        by rewrite take_0.
      * intros j Hj. lia.
      * done.
      * intros _. exists 0%nat. by rewrite Nat.add_0_r.
  - rewrite <- Hids, (bool_decide_eq_false_2 _ Hstep), Hids. by apply IH.
Qed.

(** X25. The bulk update calls [updateTeam] for the updates whose team is
    known, in the order of the updates, each for the update's team and with
    the update's counts as [books]; an update for an unknown team is
    skipped.  When every call resolves, every known update is sent and the
    modal is closed.  When a call is rejected, it is the last one: the
    known updates after it are not sent, and the modal stays open. *)
Theorem onUpdate_writes (today : string) (resolves : nat → bool)
    (ts : list Team) (updates : list ScoreUpdate) :
  let known :=
    map (λ u, (teamId u, updBooks u))
      (List.filter (λ u, bool_decide (teamId u ∈ map id ts)) updates) in
  let run := onUpdate today resolves ts updates in
  let sent := map (λ w, (writeId w, writeBooks w)) (runWrites run) in
  ((∀ j, (j < length known)%nat → resolves j = true) →
     runClosed run = true ∧ sent = known) ∧
  (∀ j, (j < length known)%nat → resolves j = false →
     (∀ i, (i < j)%nat → resolves i = true) →
     runClosed run = false ∧ sent = take (S j) known).
Proof.
  intros known run sent.
  destruct (scoreUpdateLoop_writes today resolves (map id ts) updates ts []
              eq_refl)
    as (n & Hn & Hsent & Hbefore & Hclosed & Hfailed).
  fold (onUpdate today resolves ts updates) in Hsent, Hclosed, Hfailed.
  fold run in Hsent, Hclosed, Hfailed. cbn [map app length Nat.add] in *.
  fold sent in Hsent. fold known in Hsent.
  assert (Hlen : length known
                 = length (List.filter
                             (λ u, bool_decide (teamId u ∈ map id ts)) updates))
    by (unfold known; by rewrite length_map).
  rewrite <- Hlen in *. split.
  - intros Hall. destruct (runClosed run) eqn:Hc.
    + destruct (Hclosed eq_refl) as [-> _]. split; [done|].
      by rewrite Hsent, firstn_all.
    + destruct (Hfailed eq_refl) as (j & -> & Hj).
      rewrite Hall in Hj by lia. done.
  - intros j Hj Hrej Hfirst. destruct (runClosed run) eqn:Hc.
    + destruct (Hclosed eq_refl) as [-> Hall].
      rewrite Hall in Hrej by done. done.
    + split; [done|]. destruct (Hfailed eq_refl) as (j' & -> & Hj').
      assert (j' = j) as ->; [|done].
      destruct (Nat.lt_trichotomy j' j) as [Hlt|[Heq|Hgt]]; [|done|].
      * rewrite Hfirst in Hj' by done. done.
      * rewrite (Hbefore j) in Hrej by lia. done.
Qed.

Lemma onUpdate_writes_witness :
  runClosed
    (onUpdate "2024-02-02" (λ n, bool_decide (n ≠ 1%nat))
       [legacyTeam; teamBeta]
       [mkScoreUpdate "t2" "2024-02-01" {[ "CC"%string := 2 ]};
        mkScoreUpdate "t9" "2024-02-01" {[ "MB"%string := 4 ]};
        mkScoreUpdate "t1" "2024-02-01" {[ "BB"%string := 1 ]};
        mkScoreUpdate "t2" "2024-02-01" {[ "SB"%string := 3 ]}]) = false ∧
  map (λ w, (writeId w, writeBooks w))
    (runWrites
       (onUpdate "2024-02-02" (λ n, bool_decide (n ≠ 1%nat))
          [legacyTeam; teamBeta]
          [mkScoreUpdate "t2" "2024-02-01" {[ "CC"%string := 2 ]};
           mkScoreUpdate "t9" "2024-02-01" {[ "MB"%string := 4 ]};
           mkScoreUpdate "t1" "2024-02-01" {[ "BB"%string := 1 ]};
           mkScoreUpdate "t2" "2024-02-01" {[ "SB"%string := 3 ]}]))
  = [ ("t2"%string, {[ "CC"%string := 2 ]});
      ("t1"%string, {[ "BB"%string := 1 ]}) ].
Proof.
  destruct (proj2 (onUpdate_writes "2024-02-02" (λ n, bool_decide (n ≠ 1%nat))
                     [legacyTeam; teamBeta]
                     [mkScoreUpdate "t2" "2024-02-01" {[ "CC"%string := 2 ]};
                      mkScoreUpdate "t9" "2024-02-01" {[ "MB"%string := 4 ]};
                      mkScoreUpdate "t1" "2024-02-01" {[ "BB"%string := 1 ]};
                      mkScoreUpdate "t2" "2024-02-01" {[ "SB"%string := 3 ]}])
              1%nat) as [Hclosed Hsent].
  - vm_compute. lia.
  - reflexivity.
  - intros i Hi. assert (i = 0%nat) as -> by lia. reflexivity.
  - split; [exact Hclosed|]. etrans; [exact Hsent|]. reflexivity.
Defined.

(** ** The first revision once more *)

Lemma legacy_fold_books books ks acc :
  Legacy.totalBooks (fold_left (Legacy.addBookType books) ks acc)
  = Legacy.totalBooks acc + sumZ (map (λ k, default 0 (prop books k)) ks).
Proof.
  revert acc. induction ks as [|k ks IH]; intros acc; cbn [fold_left map sumZ].
  - lia.
  - rewrite IH. unfold Legacy.addBookType. cbn [Legacy.totalBooks]. lia.
Qed.

(** X26. In the first revision a property that the table does not have
    turns the point total into [NaN], whatever its count and the other
    counts are, while the book total stays the plain sum of all counts. *)
Theorem legacy_calculateStats_NaN (books : Legacy.Books) (k : string) :
  k ∈ keys books → prop BOOK_VALUES k = None →
  Legacy.totalPoints (Legacy.calculateStats books) = None ∧
  Legacy.totalBooks (Legacy.calculateStats books)
  = sumZ (map (λ k, default 0 (prop books k)) (keys books)).
Proof.
  intros Hin Hk. split.
  - by apply (legacy_fold_unknown books (keys books) _ k).
  - unfold Legacy.calculateStats. rewrite legacy_fold_books.
    cbn [Legacy.totalBooks]. lia.
Qed.

Lemma legacy_calculateStats_NaN_witness :
  Legacy.totalPoints
    (Legacy.calculateStats (sampleLegacyBooks ++ [("Gita"%string, 0)]))
  = None.
Proof.
  apply (legacy_calculateStats_NaN
           (sampleLegacyBooks ++ [("Gita"%string, 0)]) "Gita").
  - apply (bool_decide_unpack _). by vm_compute.
  - reflexivity.
Defined.
